(** * The TCP protocol of the Omnik inverter client

    A shallow embedding of [omnikinverter/tcp.py]: the frame codec
    ([_pack_message], [_unpack_message]), the message stream decoder
    ([_unpack_messages]), the session loop ([parse_messages]) and the decoder of
    the information reply ([_parse_information_reply]), followed by the
    properties the specification states about them.

    Python values are modelled as follows.
    - an [int] is a [Z]; a [bytes] or [bytearray] is a list of [Z], each
      element of a real one being in [range(256)] ([wf_bytes]);
    - a [float] is a binary64 [PrimFloat.float], so [v * 0.1] is the IEEE
      product Python computes;
    - a [str] is the list of its code points;
    - a raised exception is the [Raise] branch of [result]. *)

From Stdlib Require Import ZArith List Lia Bool.
From Stdlib Require Import Floats.
From Stdlib Require Uint63.
Import ListNotations.

Local Open Scope Z_scope.

(** ** Exceptions and results *)

(** The messages [OmnikInverterPacketInvalidError] is raised with, one
    constructor per [raise] statement of [tcp.py]. *)
Inductive packet_invalid : Type :=
| ChecksumMismatch (calculated got : Z)
| InvalidReceiverSeparator
| SerialNumberMismatch (serial0 serial1 : Z)
| InvalidStartByte
| ShortRead (got expected : Z)
| InvalidEndByte
| UnknownMessageType (message_type : Z) (contents : list Z)
| NoInformationReply.

(** The exceptions the module can raise: its own, and the built-in ones of the
    Python operations it calls. *)
Inductive exception : Type :=
| OmnikInverterPacketInvalidError (why : packet_invalid)
| IndexError
| ValueError
| OverflowError
| KeyError (key : Z)
| UnicodeDecodeError
| IncompleteReadError (partial : list Z) (expected : Z).

Inductive result (A : Type) : Type :=
| Return (a : A)
| Raise (e : exception).

Arguments Return {A} a.
Arguments Raise {A} e.

Definition bind {A B : Type} (c : result A) (k : A -> result B) : result B :=
  match c with
  | Return a => k a
  | Raise e => Raise e
  end.

Declare Scope py_scope.
Delimit Scope py_scope with py.

Notation "x <- c ;; k" := (bind c (fun x => k))
  (at level 61, c at next level, right associativity) : py_scope.
Notation "' pat <- c ;; k" := (bind c (fun x => match x with pat => k end))
  (at level 61, pat pattern, c at next level, right associativity) : py_scope.

Local Open Scope py_scope.

(** ** Python primitives *)

Module Py.

Definition bytes : Type := list Z.

Definition is_byte (b : Z) : Prop := 0 <= b < 256.

Definition is_byteb (b : Z) : bool := (0 <=? b) && (b <? 256).

(** The elements of a real [bytes] or [bytearray] object. *)
Definition wf_bytes (l : bytes) : Prop := Forall is_byte l.

(** [bytearray(iterable_of_ints)]: [ValueError] unless every element is in
    [range(256)]. *)
Definition bytearray (l : list Z) : result bytes :=
  if forallb is_byteb l then Return l else Raise ValueError.

(** [len(b)] *)
Definition len (l : bytes) : Z := Z.of_nat (length l).

(** [sum(b)] *)
Fixpoint sum (l : bytes) : Z :=
  match l with
  | [] => 0
  | b :: l' => b + sum l'
  end.

(** [b.pop()]: the last element and the shortened array. *)
Definition pop (l : bytes) : result (Z * bytes) :=
  match rev l with
  | [] => Raise IndexError
  | x :: r => Return (x, rev r)
  end.

(** [b.pop(0)]: the first element and the shortened array. *)
Definition pop0 (l : bytes) : result (Z * bytes) :=
  match l with
  | [] => Raise IndexError
  | x :: r => Return (x, r)
  end.

(** [b[i:j]] for [0 <= i <= j]. *)
Definition slice (l : bytes) (i j : nat) : bytes := firstn (j - i) (skipn i l).

(** [b[i:]] *)
Definition slice_from (l : bytes) (i : nat) : bytes := skipn i l.

(** The [n] low bytes of [x], least significant first. *)
Fixpoint le_bytes (n : nat) (x : Z) : bytes :=
  match n with
  | O => []
  | S n' => x mod 256 :: le_bytes n' (x / 256)
  end.

(** [x.to_bytes(n, "little")]: [OverflowError] for a negative [x] and for
    one that does not fit [n] bytes. *)
Definition to_bytes_little (x : Z) (n : nat) : result bytes :=
  if (x <? 0) || (256 ^ Z.of_nat n <=? x) then Raise OverflowError
  else Return (le_bytes n x).

(** [int.from_bytes(b, "little")], of any length, the empty one included. *)
Fixpoint from_bytes_little (l : bytes) : Z :=
  match l with
  | [] => 0
  | b :: l' => b + 256 * from_bytes_little l'
  end.

(** [int.from_bytes(b, "big")] *)
Definition from_bytes_big (l : bytes) : Z := from_bytes_little (rev l).

(** A [str]: the list of its code points. *)
Definition str : Type := list Z.

Definition in_range (lo hi b : Z) : bool := (lo <=? b) && (b <=? hi).

(** A continuation byte of UTF-8. *)
Definition is_cont (b : Z) : bool := in_range 0x80 0xBF b.

Definition low6 (b : Z) : Z := Z.land b 0x3F.

(** The second byte a three-byte sequence allows after the lead [b0]: no
    overlong form after E0 and no surrogate after ED. *)
Definition second_of_3 (b0 b1 : Z) : bool :=
  if b0 =? 0xE0 then in_range 0xA0 0xBF b1
  else if b0 =? 0xED then in_range 0x80 0x9F b1
  else is_cont b1.

(** The second byte a four-byte sequence allows after the lead [b0]: no
    overlong form after F0 and nothing above U+10FFFF after F4. *)
Definition second_of_4 (b0 b1 : Z) : bool :=
  if b0 =? 0xF0 then in_range 0x90 0xBF b1
  else if b0 =? 0xF4 then in_range 0x80 0x8F b1
  else is_cont b1.

(** [b.decode("utf-8")], in the default strict mode: the code points of the
    well-formed byte sequences, [UnicodeDecodeError] on anything else. *)
Fixpoint decode_utf8 (l : bytes) : result str :=
  match l with
  | [] => Return []
  | b0 :: l1 =>
      if in_range 0 0x7F b0 then
        s <- decode_utf8 l1 ;; Return (b0 :: s)
      else if in_range 0xC2 0xDF b0 then
        match l1 with
        | b1 :: l2 =>
            if is_cont b1 then
              s <- decode_utf8 l2 ;;
              Return (Z.lor (Z.shiftl (Z.land b0 0x1F) 6) (low6 b1) :: s)
            else Raise UnicodeDecodeError
        | _ => Raise UnicodeDecodeError
        end
      else if in_range 0xE0 0xEF b0 then
        match l1 with
        | b1 :: b2 :: l3 =>
            if second_of_3 b0 b1 && is_cont b2 then
              s <- decode_utf8 l3 ;;
              Return (Z.lor (Z.shiftl (Z.land b0 0x0F) 12)
                        (Z.lor (Z.shiftl (low6 b1) 6) (low6 b2)) :: s)
            else Raise UnicodeDecodeError
        | _ => Raise UnicodeDecodeError
        end
      else if in_range 0xF0 0xF4 b0 then
        match l1 with
        | b1 :: b2 :: b3 :: l4 =>
            if second_of_4 b0 b1 && is_cont b2 && is_cont b3 then
              s <- decode_utf8 l4 ;;
              Return (Z.lor (Z.shiftl (Z.land b0 0x07) 18)
                        (Z.lor (Z.shiftl (low6 b1) 12)
                           (Z.lor (Z.shiftl (low6 b2) 6) (low6 b3))) :: s)
            else Raise UnicodeDecodeError
        | _ => Raise UnicodeDecodeError
        end
      else Raise UnicodeDecodeError
  end.

(** [c.isspace()] for a one-character string. *)
Definition isspace (c : Z) : bool :=
  in_range 0x09 0x0D c || in_range 0x1C 0x20 c || (c =? 0x85) || (c =? 0xA0)
  || (c =? 0x1680) || in_range 0x2000 0x200A c || in_range 0x2028 0x2029 c
  || (c =? 0x202F) || (c =? 0x205F) || (c =? 0x3000).

(** [s.lstrip()] *)
Fixpoint lstrip (s : str) : str :=
  match s with
  | [] => []
  | c :: s' => if isspace c then lstrip s' else s
  end.

(** [s.strip()] *)
Definition strip (s : str) : str := rev (lstrip (rev (lstrip s))).

(** The [float] an [int] converts to when it meets one in a product. *)
Definition float_of_int (v : Z) : float := PrimFloat.of_uint63 (Uint63.of_Z v).

(** The literals [0.1] and [0.01]: the binary64 values nearest to them. *)
Definition float_0_1 : float := 0x1.999999999999ap-4%float.
Definition float_0_01 : float := 0x1.47ae147ae147bp-7%float.

(** [v * f] for an [int] [v] and a [float] [f]. *)
Definition int_times_float (v : Z) (f : float) : float :=
  PrimFloat.mul (float_of_int v) f.

End Py.

Import Py.

(** ** Constants of the protocol *)

Definition MESSAGE_START : Z := 0x68.
Definition MESSAGE_END : Z := 0x16.
Definition MESSAGE_SEND_SEP : Z := 0x40.
Definition MESSAGE_RECV_SEP : Z := 0x41.
Definition MESSAGE_TYPE_INFORMATION_REQUEST : Z := 0x30.
Definition MESSAGE_TYPE_INFORMATION_REPLY : Z := 0xB0.
Definition MESSAGE_TYPE_ERROR_STRING : Z := 0xB1.
Definition MESSAGE_TYPE_STRING : Z := 0xF0.
Definition UINT16_MAX : Z := 65535.

(** Length (1 byte), separator (1), message type (1), the serial number twice
    (2 * 4) and the checksum (1). *)
Definition MESSAGE_HEADER_SIZE : Z := 3 + 2 * 4 + 1.

(** ** The frame codec *)

Definition _pack_message (message_type serial_number : Z) (message : bytes)
  : result bytes :=
  request_data <- bytearray [len message; MESSAGE_SEND_SEP; message_type] ;;
  serial_bytes <- to_bytes_little serial_number 4 ;;
  let request_data := request_data ++ serial_bytes in
  let request_data := request_data ++ serial_bytes in
  let request_data := request_data ++ message in
  let checksum := Z.land (sum request_data) 0xFF in
  let request_data := MESSAGE_START :: request_data in
  let request_data := request_data ++ [checksum] in
  let request_data := request_data ++ [MESSAGE_END] in
  Return request_data.

Definition _unpack_message (message : bytes) : result (Z * Z * bytes) :=
  '(message_checksum, message) <- pop message ;;
  let checksum := Z.land (sum message) 0xFF in
  if negb (message_checksum =? checksum) then
    Raise (OmnikInverterPacketInvalidError
             (ChecksumMismatch checksum message_checksum))
  else
    '(length, message) <- pop0 message ;;
    '(separator, message) <- pop0 message ;;
    if negb (separator =? MESSAGE_RECV_SEP) then
      Raise (OmnikInverterPacketInvalidError InvalidReceiverSeparator)
    else
      '(message_type, message) <- pop0 message ;;
      let serial0 := from_bytes_little (slice message 0 4) in
      let serial1 := from_bytes_little (slice message 4 8) in
      if negb (serial0 =? serial1) then
        Raise (OmnikInverterPacketInvalidError
                 (SerialNumberMismatch serial0 serial1))
      else
        Return (message_type, serial0, slice_from message 8).

Definition create_information_request (serial_number : Z) : result bytes :=
  _pack_message MESSAGE_TYPE_INFORMATION_REQUEST serial_number [0x01; 0x00].


(** ** The byte source

    An [asyncio.StreamReader] fed with the bytes the peer sends before it
    closes the connection: the bytes not yet consumed, and the sizes
    [readexactly] was asked for so far, oldest first. *)
Record StreamReader : Type := mkReader {
  buffer : bytes;
  requests : list Z
}.

(** [await reader.readexactly(n)]: the next [n] bytes, or
    [IncompleteReadError] when the stream ends before them. *)
Definition readexactly (reader : StreamReader) (n : Z)
  : result (bytes * StreamReader) :=
  if n <? 0 then Raise ValueError
  else if len (buffer reader) <? n then
    Raise (IncompleteReadError (buffer reader) n)
  else
    Return (firstn (Z.to_nat n) (buffer reader),
            {| buffer := skipn (Z.to_nat n) (buffer reader);
               requests := requests reader ++ [n] |}).

(** The local coroutine [readbyte]: [(await reader.readexactly(1))[0]]. *)
Definition readbyte (reader : StreamReader) : result (Z * StreamReader) :=
  '(data, reader) <- readexactly reader 1 ;;
  match data with
  | b :: _ => Return (b, reader)
  | [] => Raise IndexError
  end.

(** ** The message stream decoder *)

(** What resuming an asynchronous generator gives: the next item (with the
    byte source as the generator leaves it), the end of the iteration, or an
    exception. *)
Inductive generated : Type :=
| Yield (item : Z * Z * bytes) (reader : StreamReader)
| StopAsyncIteration
| Throw (e : exception).

(** One resumption of the generator [_unpack_messages]: an iteration of its
    [while True] loop, which always ends in the [yield], in the [return] or in
    a [raise]. The generator has no state of its own besides the reader, which
    the yielded item is paired with. *)
Definition _unpack_messages (reader : StreamReader) : generated :=
  match
    ('(message_start, reader) <- readbyte reader ;;
     if message_start =? 0xFF then Return None
     else if negb (message_start =? MESSAGE_START) then
       Raise (OmnikInverterPacketInvalidError InvalidStartByte)
     else
       '(original_length, reader) <- readbyte reader ;;
       let length := original_length + MESSAGE_HEADER_SIZE in
       '(rest, reader) <- readexactly reader (length - 1) ;;
       let message := original_length :: rest in
       if negb (len message =? length) then
         Raise (OmnikInverterPacketInvalidError (ShortRead (len message) length))
       else
         '(message_end, reader) <- readbyte reader ;;
         if negb (message_end =? MESSAGE_END) then
           Raise (OmnikInverterPacketInvalidError InvalidEndByte)
         else
           item <- _unpack_message message ;;
           Return (Some (item, reader)))
  with
  | Return (Some (item, reader)) => Yield item reader
  | Return None => StopAsyncIteration
  | Raise e => Throw e
  end.

(** ** The layout of the information reply *)

(** A field of a packed [ctypes] structure: given the buffer and the offset
    the field starts at, its value and the offset of the next field. *)
Definition field (A : Type) : Type := bytes -> nat -> A * nat.

Definition field_bind {A B : Type} (f : field A) (k : A -> field B) : field B :=
  fun buf off => let '(a, off') := f buf off in k a buf off'.

Definition field_ret {A : Type} (a : A) : field A := fun _ off => (a, off).

Declare Scope layout_scope.
Delimit Scope layout_scope with layout.

Notation "x <- c ;; k" := (field_bind c (fun x => k))
  (at level 61, c at next level, right associativity) : layout_scope.

(** The bytes of a [c_char] array up to its first NUL, as reading such a
    field gives them. *)
Fixpoint until_nul (l : bytes) : bytes :=
  match l with
  | [] => []
  | b :: l' => if b =? 0 then [] else b :: until_nul l'
  end.

Definition c_ubyte_array (n : nat) : field (list Z) :=
  fun buf off => (slice buf off (off + n), (off + n)%nat).

Definition c_char_array (n : nat) : field bytes :=
  fun buf off => (until_nul (slice buf off (off + n)), (off + n)%nat).

(** A [c_ushort] of a [BigEndianStructure]. *)
Definition c_ushort : field Z :=
  fun buf off => (from_bytes_big (slice buf off (off + 2)), (off + 2)%nat).

(** A [c_uint] of a [BigEndianStructure]. *)
Definition c_uint : field Z :=
  fun buf off => (from_bytes_big (slice buf off (off + 4)), (off + 4)%nat).

(** [ty * n] *)
Fixpoint array {A : Type} (ty : field A) (n : nat) : field (list A) :=
  match n with
  | O => field_ret []
  | S n' => (x <- ty ;; xs <- array ty n' ;; field_ret (x :: xs))%layout
  end.

Module _AcOutput.

Record t : Type := mk { frequency : Z; power : Z }.

Definition _fields_ : field t :=
  (frequency <- c_ushort ;;
   power <- c_ushort ;;
   field_ret (mk frequency power))%layout.

Definition get_power (self : t) : option Z :=
  if power self =? UINT16_MAX then None else Some (power self).

Definition get_frequency (self : t) : option float :=
  if frequency self =? UINT16_MAX then None
  else Some (int_times_float (frequency self) float_0_01).

End _AcOutput.

Module _TcpData.

Record t : Type := mk {
  padding0 : bytes;
  serial_number : bytes;
  temperature : Z;
  dc_input_voltage : list Z;
  dc_input_current : list Z;
  ac_output_current : list Z;
  ac_output_voltage : list Z;
  ac_output : list _AcOutput.t;
  solar_energy_today : Z;
  solar_energy_total : Z;
  solar_hours_total : Z;
  inverter_active : Z;
  padding1 : list Z;
  unknown0 : Z;
  padding2 : list Z;
  firmware : bytes;
  padding3 : list Z;
  firmware_slave : bytes;
  padding4 : list Z
}.

(** The fields in the order of [_fields_]; with [_pack_ = 1] each starts where
    the one before it ends. *)
Definition _fields_ : field t :=
  (padding0 <- c_char_array 3 ;;
   serial_number <- c_char_array 16 ;;
   temperature <- c_ushort ;;
   dc_input_voltage <- array c_ushort 3 ;;
   dc_input_current <- array c_ushort 3 ;;
   ac_output_current <- array c_ushort 3 ;;
   ac_output_voltage <- array c_ushort 3 ;;
   ac_output <- array _AcOutput._fields_ 3 ;;
   solar_energy_today <- c_ushort ;;
   solar_energy_total <- c_uint ;;
   solar_hours_total <- c_uint ;;
   inverter_active <- c_ushort ;;
   padding1 <- c_ubyte_array 4 ;;
   unknown0 <- c_ushort ;;
   padding2 <- c_ubyte_array 10 ;;
   firmware <- c_char_array 16 ;;
   padding3 <- c_ubyte_array 4 ;;
   firmware_slave <- c_char_array 16 ;;
   padding4 <- c_ubyte_array 4 ;;
   field_ret
     (mk padding0 serial_number temperature dc_input_voltage dc_input_current
         ac_output_current ac_output_voltage ac_output solar_energy_today
         solar_energy_total solar_hours_total inverter_active padding1
         unknown0 padding2 firmware padding3 firmware_slave padding4))%layout.

(** [ctypes.sizeof(_TcpData)]: where the last field ends. *)
Definition sizeof : nat := snd (_fields_ [] 0%nat).

(** [_TcpData.from_buffer_copy(data)]: [ValueError] for a buffer smaller than
    the structure; a larger one is accepted and its tail ignored. *)
Definition from_buffer_copy (data : bytes) : result t :=
  if (length data <? sizeof)%nat then Raise ValueError
  else Return (fst (_fields_ data 0%nat)).

End _TcpData.

(** ** The information reply decoder *)

(** The dictionary [_parse_information_reply] returns, one field per key. *)
Record information_reply : Type := mkInfo {
  serial_number : str;
  temperature : option float;
  dc_input_voltage : list (option float);
  dc_input_current : list (option float);
  ac_output_current : list (option float);
  ac_output_voltage : list (option float);
  ac_output_frequency : list (option float);
  ac_output_power : list (option Z);
  solar_energy_today : float;
  solar_energy_total : float;
  solar_hours_total : Z;
  inverter_active : bool;
  firmware : str;
  firmware_slave : str
}.

Definition list_divide_10 (integers : list Z) : list (option float) :=
  map (fun v => if v =? UINT16_MAX then None
                else Some (int_times_float v float_0_1)) integers.

(** The lookup [{0: False, 1: True}[num]]. *)
Definition int_to_bool (num : Z) : result bool :=
  if num =? 0 then Return false
  else if num =? 1 then Return true
  else Raise (KeyError num).

Definition temperature_to_float (temp : Z) : option float :=
  if temp =? 65326 then None else Some (int_times_float temp float_0_1).

(** The loop over [field_extractors], one step per key in the order of the
    dictionary. The warnings about [unknown0] and the paddings that precede it
    only write to the log. *)
Definition _parse_information_reply (data : bytes) : result information_reply :=
  tcp_data <- _TcpData.from_buffer_copy data ;;
  serial_number <- decode_utf8 (_TcpData.serial_number tcp_data) ;;
  let temperature := temperature_to_float (_TcpData.temperature tcp_data) in
  let dc_input_voltage := list_divide_10 (_TcpData.dc_input_voltage tcp_data) in
  let dc_input_current := list_divide_10 (_TcpData.dc_input_current tcp_data) in
  let ac_output_current := list_divide_10 (_TcpData.ac_output_current tcp_data) in
  let ac_output_voltage := list_divide_10 (_TcpData.ac_output_voltage tcp_data) in
  let ac_output_frequency :=
    map _AcOutput.get_frequency (_TcpData.ac_output tcp_data) in
  let ac_output_power :=
    map _AcOutput.get_power (_TcpData.ac_output tcp_data) in
  let solar_energy_today :=
    int_times_float (_TcpData.solar_energy_today tcp_data) float_0_01 in
  let solar_energy_total :=
    int_times_float (_TcpData.solar_energy_total tcp_data) float_0_1 in
  let solar_hours_total := _TcpData.solar_hours_total tcp_data in
  inverter_active <- int_to_bool (_TcpData.inverter_active tcp_data) ;;
  firmware <- decode_utf8 (_TcpData.firmware tcp_data) ;;
  firmware_slave <- decode_utf8 (_TcpData.firmware_slave tcp_data) ;;
  Return
    (mkInfo serial_number temperature dc_input_voltage dc_input_current
       ac_output_current ac_output_voltage ac_output_frequency ac_output_power
       solar_energy_today solar_energy_total solar_hours_total inverter_active
       firmware firmware_slave).

(** ** The session loop *)

(** The records [parse_messages] sends to [LOGGER]. *)
Inductive log_record : Type :=
| DebugSerialNotEqual (reply_serial_number serial_number : Z)
| WarningMultipleReplies
| WarningTextMessage (text : str)
| WarningErrorMessage (message : bytes).

(** The [async for] loop of [parse_messages]: [info] and the log so far are
    carried from one iteration to the next, and each iteration resumes the
    generator once. [None] only when [fuel] iterations did not reach the end. *)
Fixpoint parse_loop (fuel : nat) (serial_number : Z)
  (info : option information_reply) (log : list log_record)
  (reader : StreamReader) : option (list log_record * result information_reply) :=
  match fuel with
  | O => None
  | S fuel' =>
      match _unpack_messages reader with
      | Throw e => Some (log, Raise e)
      | StopAsyncIteration =>
          match info with
          | None =>
              Some (log, Raise (OmnikInverterPacketInvalidError NoInformationReply))
          | Some info => Some (log, Return info)
          end
      | Yield (message_type, reply_serial_number, message) reader =>
          let log :=
            if negb (reply_serial_number =? serial_number) then
              log ++ [DebugSerialNotEqual reply_serial_number serial_number]
            else log in
          if message_type =? MESSAGE_TYPE_INFORMATION_REPLY then
            let log :=
              match info with
              | Some _ => log ++ [WarningMultipleReplies]
              | None => log
              end in
            match _parse_information_reply message with
            | Raise e => Some (log, Raise e)
            | Return info => parse_loop fuel' serial_number (Some info) log reader
            end
          else if message_type =? MESSAGE_TYPE_STRING then
            match decode_utf8 message with
            | Raise e => Some (log, Raise e)
            | Return text =>
                parse_loop fuel' serial_number info
                  (log ++ [WarningTextMessage (strip text)]) reader
            end
          else if message_type =? MESSAGE_TYPE_ERROR_STRING then
            parse_loop fuel' serial_number info
              (log ++ [WarningErrorMessage message]) reader
          else
            Some (log, Raise (OmnikInverterPacketInvalidError
                                (UnknownMessageType message_type message)))
      end
  end.

(** [parse_messages(serial_number, reader)]: the log it writes and what it
    returns or raises. Every iteration consumes at least one byte, so one more
    iteration than the source holds bytes is enough ([parse_messages_total]). *)
Definition parse_messages (serial_number : Z) (reader : StreamReader)
  : option (list log_record * result information_reply) :=
  parse_loop (S (length (buffer reader))) serial_number None [] reader.

(** ** Notions the specification uses *)

(** How an iteration over the generator ends. *)
Inductive stream_end : Type :=
| EndOfMessages
| EndByException (e : exception).

(** [stream_yields reader items e]: resumed again and again from [reader], the
    generator yields [items] in this order and then ends as [e] says. *)
Inductive stream_yields : StreamReader -> list (Z * Z * bytes) -> stream_end -> Prop :=
| yields_stop reader :
    _unpack_messages reader = StopAsyncIteration ->
    stream_yields reader [] EndOfMessages
| yields_throw reader e :
    _unpack_messages reader = Throw e ->
    stream_yields reader [] (EndByException e)
| yields_item reader item reader' items e :
    _unpack_messages reader = Yield item reader' ->
    stream_yields reader' items e ->
    stream_yields reader (item :: items) e.

(** The body of a frame: what lies between its start and end markers, the
    checksum included. *)
Definition frame_body (frame : bytes) : bytes := removelast (tl frame).

(** The byte at index [i], with bit [k] flipped. *)
Definition flip_bit (message : bytes) (i : nat) (k : Z) : bytes :=
  firstn i message ++ Z.lxor (nth i message 0) (2 ^ k) :: skipn (S i) message.

(** The big-endian u16 at byte offset [off] of a payload. *)
Definition u16_at (data : bytes) (off : nat) : Z :=
  256 * nth off data 0 + nth (S off) data 0.

(** A frame as the inverter sends it: the layout [_pack_message] writes, with
    the receive separator in the place of the send separator. *)
Definition reply_frame (message_type serial_number : Z) (message : bytes) : bytes :=
  let body :=
    [len message; MESSAGE_RECV_SEP; message_type]
      ++ le_bytes 4 serial_number ++ le_bytes 4 serial_number ++ message in
  MESSAGE_START :: body ++ [Z.land (sum body) 0xFF; MESSAGE_END].

(** The number of bytes the specification has the decoder read after the length
    byte [L]: [L + HEADER_SIZE - 1] with its [HEADER_SIZE = 11]. *)
Definition claimed_body_read (L : Z) : Z := L + 11 - 1.

Definition message_type_of (item : Z * Z * bytes) : Z := fst (fst item).

(** A message the loop of [parse_messages] only logs: a text message whose
    bytes decode, or an error string. *)
Definition only_logged (item : Z * Z * bytes) : Prop :=
  let '(message_type, _, message) := item in
  (message_type = MESSAGE_TYPE_STRING /\ exists text, decode_utf8 message = Return text)
  \/ message_type = MESSAGE_TYPE_ERROR_STRING.

(** The log without the debug records about the serial number. *)
Definition without_serial_debug (log : list log_record) : list log_record :=
  filter (fun r => match r with DebugSerialNotEqual _ _ => false | _ => true end) log.

(** What a caller observes of [parse_messages] besides these debug records. *)
Definition observable (out : option (list log_record * result information_reply))
  : option (list log_record * result information_reply) :=
  option_map (fun '(log, r) => (without_serial_debug log, r)) out.

(** The decode rule of a scaled field with a sentinel: null for the sentinel,
    the raw value times the scale for any other raw value. *)
Definition scaled_unless (sentinel : Z) (scale : float) (raw : Z) : option float :=
  if raw =? sentinel then None else Some (int_times_float raw scale).

(** The decode rule of an unscaled field with a sentinel. *)
Definition raw_unless (sentinel raw : Z) : option Z :=
  if raw =? sentinel then None else Some raw.

(** The exceptions the decoder of the information reply raises on a field
    whose value it cannot decode: the failed lookup of [int_to_bool] and the
    failed decoding of a string field. *)
Definition invalid_field_value (exn : exception) : Prop :=
  (exists key, exn = KeyError key) \/ exn = UnicodeDecodeError.

(** An information reply of 125 bytes: 25.0 degrees, one DC string and one AC
    phase in use, the others unset. *)
Definition sample_payload : bytes :=
  [129; 2; 1; 78; 76; 68; 78; 50; 48; 50; 48; 49; 51; 50; 49; 50;
   48; 51; 53; 0; 250; 7; 89; 255; 255; 255; 255; 0; 8; 0; 0; 255;
   255; 0; 7; 255; 255; 255; 255; 9; 64; 255; 255; 255; 255; 19; 138; 6;
   107; 255; 255; 255; 255; 255; 255; 255; 255; 1; 156; 0; 2; 75; 206; 0;
   0; 69; 29; 0; 1; 0; 0; 0; 0; 0; 0; 0; 0; 0; 0; 0;
   0; 0; 0; 0; 0; 78; 76; 49; 45; 86; 49; 46; 48; 45; 48; 48;
   55; 55; 45; 52; 0; 0; 0; 0; 0; 86; 52; 46; 48; 56; 66; 117;
   105; 108; 100; 50; 51; 57; 0; 0; 0; 0; 0; 0; 0].

(** What [sample_payload] decodes to. *)
Definition sample_information_reply : information_reply :=
  {| serial_number := [78; 76; 68; 78; 50; 48; 50; 48; 49; 51; 50; 49; 50; 48; 51; 53];
     temperature := Some 0x1.9p+4%float;
     dc_input_voltage := [Some 0x1.7833333333334p+7%float; None; None];
     dc_input_current := [Some 0x1.999999999999ap-1%float; Some 0x0p+0%float; None];
     ac_output_current := [Some 0x1.6666666666667p-1%float; None; None];
     ac_output_voltage := [Some 0x1.d99999999999ap+7%float; None; None];
     ac_output_frequency := [Some 0x1.9028f5c28f5c3p+5%float; None; None];
     ac_output_power := [Some 1643; None; None];
     solar_energy_today := 0x1.07ae147ae147bp+2%float;
     solar_energy_total := 0x1.d63e666666667p+13%float;
     solar_hours_total := 17693;
     inverter_active := true;
     firmware := [78; 76; 49; 45; 86; 49; 46; 48; 45; 48; 48; 55; 55; 45; 52];
     firmware_slave := [86; 52; 46; 48; 56; 66; 117; 105; 108; 100; 50; 51; 57] |}.

(** [sample_payload] with 2 in the place of [inverter_active]. *)
Definition sample_payload_active_2 : bytes :=
  firstn 67 sample_payload ++ [0; 2] ++ skipn 69 sample_payload.

(** The big-endian u32 at byte offset [off] of a payload. *)
Definition u32_at (data : bytes) (off : nat) : Z :=
  256 * (256 * (256 * nth off data 0 + nth (S off) data 0)
         + nth (S (S off)) data 0)
  + nth (S (S (S off))) data 0.

Definition is_information_reply (item : Z * Z * bytes) : Prop :=
  message_type_of item = MESSAGE_TYPE_INFORMATION_REPLY.

(** A message after which the loop of [parse_messages] goes on: one it only
    logs, or an information reply that decodes. *)
Definition accepted (item : Z * Z * bytes) : Prop :=
  only_logged item \/
  (is_information_reply item /\
   exists info, _parse_information_reply (snd item) = Return info).

(** The value of [info] after the loop has gone through [items]: the record
    of the last information reply among them that decodes, or [info] as it
    was. *)
Definition info_after (info : option information_reply)
  (items : list (Z * Z * bytes)) : option information_reply :=
  fold_left
    (fun info item =>
       if message_type_of item =? MESSAGE_TYPE_INFORMATION_REPLY then
         match _parse_information_reply (snd item) with
         | Return i => Some i
         | Raise _ => info
         end
       else info)
    items info.

(** The bytes of a sequence of reply frames, one after the other. *)
Definition reply_frames (items : list (Z * Z * bytes)) : bytes :=
  flat_map (fun '(message_type, serial_number, message) =>
              reply_frame message_type serial_number message) items.

(** A text of ASCII characters other than NUL. *)
Definition ascii_text (text : bytes) : Prop := Forall (fun c => 1 <= c <= 127) text.

(** The bytes of a [c_char] array holding [text]: the text fills the array, or
    a NUL follows it. *)
Definition holds_text (array text : bytes) : Prop :=
  exists padding,
    array = text ++ padding /\
    match padding with [] => True | b :: _ => b = 0 end.

(** The body of a frame with the receive separator in the place of its
    separator, and with its checksum byte moved by the difference of the two
    separators: every other byte is kept. *)
Definition with_receive_separator (body : bytes) : bytes :=
  match body with
  | length_byte :: separator :: rest =>
      length_byte :: MESSAGE_RECV_SEP :: removelast rest
        ++ [Z.land (last rest 0 + (MESSAGE_RECV_SEP - separator)) 0xFF]
  | _ => body
  end.

(** The records the loop of [parse_messages] writes for messages it only
    logs: for each, the debug record when its serial number is not the one
    asked for, then the warning with the stripped text or with the bytes of
    the error string. *)
Definition logged_records (serial_number : Z) (items : list (Z * Z * bytes))
  : list log_record :=
  flat_map
    (fun '(message_type, reply_serial_number, message) =>
       (if negb (reply_serial_number =? serial_number)
        then [DebugSerialNotEqual reply_serial_number serial_number] else [])
       ++ (if message_type =? MESSAGE_TYPE_STRING then
             match decode_utf8 message with
             | Return text => [WarningTextMessage (strip text)]
             | Raise _ => []
             end
           else if message_type =? MESSAGE_TYPE_ERROR_STRING then
             [WarningErrorMessage message]
           else []))
    items.

(** [sample_payload] of an inverter that is offline: 65326 in the place of the
    temperature. *)
Definition sample_payload_offline : bytes :=
  firstn 19 sample_payload ++ [0xFF; 0x2E] ++ skipn 21 sample_payload.

(** * Properties *)

(** ** Bytes, sums and integers *)

Lemma pop_app (l : bytes) (x : Z) : pop (l ++ [x]) = Return (x, l).
Proof.
  unfold pop. rewrite rev_app_distr. simpl. now rewrite rev_involutive.
Qed.

Lemma pop_Return (l l' : bytes) (x : Z) :
  pop l = Return (x, l') -> l = l' ++ [x].
Proof.
  unfold pop. destruct (rev l) as [|y r] eqn:E; [discriminate|].
  intros H. injection H as -> <-.
  rewrite <- (rev_involutive l), E. reflexivity.
Qed.

Lemma sum_app (l1 l2 : bytes) : sum (l1 ++ l2) = sum l1 + sum l2.
Proof. induction l1 as [|b l1 IH]; simpl; lia. Qed.

Lemma land_0xFF (x : Z) : Z.land x 0xFF = x mod 256.
Proof. change 0xFF with (Z.ones 8). now rewrite Z.land_ones by lia. Qed.

Lemma le_bytes_length (n : nat) (x : Z) : length (le_bytes n x) = n.
Proof. revert x. induction n as [|n IH]; intros x; simpl; [|rewrite IH]; reflexivity. Qed.

Lemma from_bytes_little_le_bytes (n : nat) (x : Z) :
  0 <= x < 256 ^ Z.of_nat n -> from_bytes_little (le_bytes n x) = x.
Proof.
  revert x. induction n as [|n IH]; intros x Hx.
  - simpl in *. lia.
  - cbn [le_bytes from_bytes_little]. rewrite IH.
    + pose proof (Z.div_mod x 256). lia.
    + rewrite Nat2Z.inj_succ, Z.pow_succ_r in Hx by lia.
      split; [apply Z.div_pos; lia|apply Z.div_lt_upper_bound; lia].
Qed.

(** Little-endian decoding is one-to-one on byte strings of one length. *)
Lemma from_bytes_little_inj (l1 l2 : bytes) :
  wf_bytes l1 -> wf_bytes l2 -> length l1 = length l2 ->
  from_bytes_little l1 = from_bytes_little l2 -> l1 = l2.
Proof.
  intros H1. revert l2. induction H1 as [|b1 l1 Hb1 _ IH]; intros l2 H2 Hlen Heq.
  - destruct l2; [reflexivity|discriminate].
  - destruct H2 as [|b2 l2 Hb2 H2]; [discriminate|].
    cbn [from_bytes_little] in Heq. unfold is_byte in *.
    assert (b1 = b2 /\ from_bytes_little l1 = from_bytes_little l2) as [-> Hr] by lia.
    f_equal. apply IH; auto.
Qed.

Lemma firstn_app_exact {A : Type} (l1 l2 : list A) (n : nat) :
  length l1 = n -> firstn n (l1 ++ l2) = l1.
Proof.
  intros <-. rewrite firstn_app, Nat.sub_diag, firstn_all. simpl. apply app_nil_r.
Qed.

Lemma skipn_app_exact {A : Type} (l1 l2 : list A) (n : nat) :
  length l1 = n -> skipn n (l1 ++ l2) = l2.
Proof.
  intros <-. rewrite skipn_app, Nat.sub_diag, skipn_all. reflexivity.
Qed.

Lemma decode_utf8_Raise_bounded (n : nat) :
  forall (l : bytes) (exn : exception),
    (length l <= n)%nat -> decode_utf8 l = Raise exn -> exn = UnicodeDecodeError.
Proof.
  induction n as [|n IH]; intros l exn Hlen.
  - destruct l; [discriminate|simpl in Hlen; lia].
  - destruct l as [|b0 l1]; [discriminate|].
    cbn [decode_utf8 length] in *.
    assert (Hrec : forall l' (k : str -> result str),
               (length l' <= n)%nat ->
               (forall s, k s <> Raise exn) ->
               bind (decode_utf8 l') k = Raise exn -> exn = UnicodeDecodeError).
    { intros l' k Hl' Hk. destruct (decode_utf8 l') as [s|e'] eqn:E; cbn [bind].
      - intros H. now apply Hk in H.
      - intros H. injection H as <-. now apply (IH l'). }
    destruct (in_range 0 0x7F b0).
    { apply Hrec; [lia|discriminate]. }
    destruct (in_range 0xC2 0xDF b0).
    { destruct l1 as [|b1 l2]; [congruence|]. cbn [length] in Hlen.
      destruct (is_cont b1); [|congruence].
      apply Hrec; [lia|discriminate]. }
    destruct (in_range 0xE0 0xEF b0).
    { destruct l1 as [|b1 [|b2 l3]]; try congruence. cbn [length] in Hlen.
      destruct (second_of_3 b0 b1 && is_cont b2); [|congruence].
      apply Hrec; [lia|discriminate]. }
    destruct (in_range 0xF0 0xF4 b0); [|congruence].
    destruct l1 as [|b1 [|b2 [|b3 l4]]]; try congruence. cbn [length] in Hlen.
    destruct (second_of_4 b0 b1 && is_cont b2 && is_cont b3); [|congruence].
    apply Hrec; [lia|discriminate].
Qed.

(** Decoding UTF-8 raises nothing but [UnicodeDecodeError]. *)
Lemma decode_utf8_Raise (l : bytes) (exn : exception) :
  decode_utf8 l = Raise exn -> exn = UnicodeDecodeError.
Proof. apply (decode_utf8_Raise_bounded (length l)). lia. Qed.

(** Closes [wf_bytes l] for a list [l] of numerals. *)
Ltac solve_wf_bytes :=
  repeat (apply Forall_cons; [unfold is_byte; lia|]); apply Forall_nil.

(** ** The frame codec *)

(** What [_unpack_message] does to a body that has its three header bytes
    and a checksum byte. *)
Lemma unpack_message_body (length_byte separator message_type checksum : Z)
  (rest : bytes) :
  _unpack_message (length_byte :: separator :: message_type :: rest ++ [checksum]) =
  let calculated := Z.land (length_byte + (separator + (message_type + sum rest))) 0xFF in
  if negb (checksum =? calculated) then
    Raise (OmnikInverterPacketInvalidError (ChecksumMismatch calculated checksum))
  else if negb (separator =? MESSAGE_RECV_SEP) then
    Raise (OmnikInverterPacketInvalidError InvalidReceiverSeparator)
  else
    let serial0 := from_bytes_little (slice rest 0 4) in
    let serial1 := from_bytes_little (slice rest 4 8) in
    if negb (serial0 =? serial1) then
      Raise (OmnikInverterPacketInvalidError (SerialNumberMismatch serial0 serial1))
    else Return (message_type, serial0, slice_from rest 8).
Proof.
  unfold _unpack_message.
  change (length_byte :: separator :: message_type :: rest ++ [checksum])
    with ((length_byte :: separator :: message_type :: rest) ++ [checksum]).
  rewrite pop_app. cbn [bind sum pop0]. reflexivity.
Qed.

Lemma serials_of_body (s0 s1 payload : bytes) :
  length s0 = 4%nat -> length s1 = 4%nat ->
  slice (s0 ++ s1 ++ payload) 0 4 = s0 /\
  slice (s0 ++ s1 ++ payload) 4 8 = s1 /\
  slice_from (s0 ++ s1 ++ payload) 8 = payload.
Proof.
  intros H0 H1. unfold slice, slice_from.
  repeat split.
  - change (firstn 4 (s0 ++ s1 ++ payload) = s0). now apply firstn_app_exact.
  - change (firstn 4 (skipn 4 (s0 ++ s1 ++ payload)) = s1).
    rewrite (skipn_app_exact s0) by assumption. now apply firstn_app_exact.
  - change 8%nat with (4 + 4)%nat. rewrite <- skipn_skipn.
    rewrite (skipn_app_exact s0) by assumption. now apply skipn_app_exact.
Qed.

Lemma frame_body_of (body : bytes) (checksum : Z) :
  frame_body (MESSAGE_START :: body ++ [checksum; MESSAGE_END]) = body ++ [checksum].
Proof.
  unfold frame_body. cbn [tl].
  change [checksum; MESSAGE_END] with ([checksum] ++ [MESSAGE_END]).
  rewrite app_assoc. apply removelast_last.
Qed.

Lemma pack_message_frame (message_type serial_number : Z) (message : bytes) :
  is_byte message_type -> 0 <= serial_number < 2 ^ 32 -> len message <= 255 ->
  _pack_message message_type serial_number message =
  Return
    (let body :=
       [len message; MESSAGE_SEND_SEP; message_type]
         ++ le_bytes 4 serial_number ++ le_bytes 4 serial_number ++ message in
     MESSAGE_START :: body ++ [Z.land (sum body) 0xFF; MESSAGE_END]).
Proof.
  intros Ht Hs Hl. unfold _pack_message, bytearray, to_bytes_little, is_byte, len in *.
  replace (forallb is_byteb _) with true.
  2:{ symmetry. cbn [forallb]. unfold is_byteb, MESSAGE_SEND_SEP.
      rewrite !andb_true_iff, !Z.leb_le, !Z.ltb_lt. lia. }
  replace ((serial_number <? 0) || (256 ^ Z.of_nat 4 <=? serial_number)) with false.
  2:{ symmetry. rewrite orb_false_iff, Z.ltb_ge, Z.leb_gt.
      change (256 ^ Z.of_nat 4) with (2 ^ 32). lia. }
  cbn [bind]. cbv zeta. f_equal. cbn [app]. f_equal.
  rewrite <- !app_assoc. reflexivity.
Qed.

(** The body of a reply frame decodes to what the frame was built from. *)
Lemma unpack_reply_frame_body (message_type serial_number : Z) (message : bytes) :
  0 <= serial_number < 2 ^ 32 ->
  _unpack_message (frame_body (reply_frame message_type serial_number message)) =
  Return (message_type, serial_number, message).
Proof.
  intros Hs.
  pose proof (le_bytes_length 4 serial_number) as Hlen.
  destruct (serials_of_body (le_bytes 4 serial_number) (le_bytes 4 serial_number)
              message Hlen Hlen) as (E0 & E1 & E2).
  unfold reply_frame. rewrite frame_body_of. cbn [app sum].
  rewrite unpack_message_body. cbv zeta.
  rewrite Z.eqb_refl, E0, E1, E2. cbn [negb]. rewrite Z.eqb_refl. cbn [negb].
  rewrite from_bytes_little_le_bytes by (change (256 ^ Z.of_nat 4) with (2 ^ 32); lia).
  rewrite Z.eqb_refl. reflexivity.
Qed.

Lemma with_receive_separator_body (length_byte separator message_type checksum : Z)
  (rest : bytes) :
  with_receive_separator
    (length_byte :: separator :: message_type :: rest ++ [checksum]) =
  length_byte :: MESSAGE_RECV_SEP :: message_type :: rest
    ++ [Z.land (checksum + (MESSAGE_RECV_SEP - separator)) 0xFF].
Proof.
  unfold with_receive_separator.
  change (message_type :: rest ++ [checksum])
    with ((message_type :: rest) ++ [checksum]).
  rewrite removelast_last, last_last. reflexivity.
Qed.

(** C1, as the code has it. For every message type byte, serial number below
    2^32 and payload of at most 255 bytes (the 2-byte request payload
    included), [_pack_message] returns a frame, and [_unpack_message] applied
    to the body of this frame accepts the checksum and then raises
    "Invalid receiver separator": the encoder writes the send separator 0x40
    and the decoder demands the receive separator 0x41. Applied to this same
    body with the separator byte replaced by 0x41 and the checksum byte moved
    by the difference, every other byte being as the encoder wrote it, it
    returns the original message type, serial number and payload; this body
    is the body of the reply frame for them. *)
Theorem unpack_of_pack_message (message_type serial_number : Z) (message : bytes) :
  is_byte message_type -> 0 <= serial_number < 2 ^ 32 -> len message <= 255 ->
  exists frame,
    _pack_message message_type serial_number message = Return frame /\
    _unpack_message (frame_body frame) =
    Raise (OmnikInverterPacketInvalidError InvalidReceiverSeparator) /\
    _unpack_message (with_receive_separator (frame_body frame)) =
    Return (message_type, serial_number, message) /\
    with_receive_separator (frame_body frame) =
    frame_body (reply_frame message_type serial_number message).
Proof.
  intros Ht Hs Hl.
  eexists. split; [now apply pack_message_frame|].
  cbv zeta. rewrite frame_body_of. cbn [app sum].
  assert (Hreply :
            with_receive_separator
              (len message :: MESSAGE_SEND_SEP :: message_type
                 :: (le_bytes 4 serial_number ++ le_bytes 4 serial_number ++ message)
                 ++ [Z.land
                       (len message
                        + (MESSAGE_SEND_SEP
                           + (message_type
                              + sum (le_bytes 4 serial_number
                                       ++ le_bytes 4 serial_number ++ message))))
                       0xFF]) =
            frame_body (reply_frame message_type serial_number message)).
  { rewrite with_receive_separator_body.
    unfold reply_frame. rewrite frame_body_of. cbn [app sum].
    do 5 f_equal. rewrite !land_0xFF.
    unfold MESSAGE_RECV_SEP, MESSAGE_SEND_SEP.
    rewrite Zplus_mod_idemp_l. f_equal. lia. }
  split; [|split].
  - rewrite unpack_message_body. cbv zeta.
    rewrite Z.eqb_refl. reflexivity.
  - rewrite Hreply. now apply unpack_reply_frame_body.
  - exact Hreply.
Qed.

(** C1 on the information request for the serial number 123456789. *)
Lemma unpack_of_pack_message_witness :
  exists frame,
    _pack_message 0x30 123456789 [0x01; 0x00] = Return frame /\
    _unpack_message (frame_body frame) =
    Raise (OmnikInverterPacketInvalidError InvalidReceiverSeparator) /\
    _unpack_message (with_receive_separator (frame_body frame)) =
    Return (0x30, 123456789, [0x01; 0x00]) /\
    with_receive_separator (frame_body frame) =
    frame_body (reply_frame 0x30 123456789 [0x01; 0x00]).
Proof.
  apply (unpack_of_pack_message 0x30 123456789 [0x01; 0x00]);
    unfold is_byte, len; simpl; lia.
Defined.

(** C1, as the specification states it, fails on the information request
    itself: the body of the frame built for serial number 123456789 and the
    payload 01 00 does not decode to what was encoded. *)
Lemma request_does_not_roundtrip :
  exists frame,
    create_information_request 123456789 = Return frame /\
    _pack_message MESSAGE_TYPE_INFORMATION_REQUEST 123456789 [0x01; 0x00] = Return frame /\
    _unpack_message (frame_body frame) <>
    Return (MESSAGE_TYPE_INFORMATION_REQUEST, 123456789, [0x01; 0x00]).
Proof.
  eexists. split; [vm_compute; reflexivity|].
  split; [vm_compute; reflexivity|].
  vm_compute. discriminate.
Qed.

(** C7. A frame body with a valid checksum and the receive separator, whose
    two embedded 4-byte serial numbers are [s0] and [s1]: when the two differ,
    [_unpack_message] raises the serial number mismatch; when they agree, it
    returns the message type, their common little-endian value and the
    payload. *)
Theorem unpack_message_serial_check (length_byte message_type : Z)
  (s0 s1 payload : bytes) :
  wf_bytes s0 -> wf_bytes s1 -> length s0 = 4%nat -> length s1 = 4%nat ->
  let body := length_byte :: MESSAGE_RECV_SEP :: message_type :: s0 ++ s1 ++ payload in
  let message := body ++ [Z.land (sum body) 0xFF] in
  (s0 <> s1 ->
   _unpack_message message =
   Raise (OmnikInverterPacketInvalidError
            (SerialNumberMismatch (from_bytes_little s0) (from_bytes_little s1)))) /\
  (s0 = s1 ->
   _unpack_message message = Return (message_type, from_bytes_little s0, payload)).
Proof.
  intros W0 W1 L0 L1 body message. subst body message.
  destruct (serials_of_body s0 s1 payload L0 L1) as (E0 & E1 & E2).
  cbn [app sum]. rewrite unpack_message_body. cbv zeta.
  rewrite !Z.eqb_refl, E0, E1, E2. cbn [negb].
  split.
  - intros Hne.
    destruct (Z.eqb_spec (from_bytes_little s0) (from_bytes_little s1)) as [Heq|_];
      [|reflexivity].
    exfalso. apply Hne. apply from_bytes_little_inj; auto. congruence.
  - intros <-. now rewrite Z.eqb_refl.
Qed.

(** C7 on two frame bodies: one with the serial numbers 123456789 and
    123456790, one with 123456789 twice. *)
Lemma unpack_message_serial_check_witness :
  let body s1 := 125 :: MESSAGE_RECV_SEP :: 0xB0 :: [21; 205; 91; 7] ++ s1 ++ [1; 2; 3] in
  _unpack_message (body [22; 205; 91; 7] ++ [Z.land (sum (body [22; 205; 91; 7])) 0xFF]) =
  Raise (OmnikInverterPacketInvalidError (SerialNumberMismatch 123456789 123456790)) /\
  _unpack_message (body [21; 205; 91; 7] ++ [Z.land (sum (body [21; 205; 91; 7])) 0xFF]) =
  Return (0xB0, 123456789, [1; 2; 3]).
Proof.
  split.
  - apply (unpack_message_serial_check 125 0xB0 [21; 205; 91; 7] [22; 205; 91; 7] [1; 2; 3]);
      try reflexivity; try solve_wf_bytes.
    discriminate.
  - apply (unpack_message_serial_check 125 0xB0 [21; 205; 91; 7] [21; 205; 91; 7] [1; 2; 3]);
      try reflexivity; solve_wf_bytes.
Defined.

(** ** Checksum sensitivity *)

Lemma land_pow2_clear (b k : Z) :
  0 <= k -> Z.testbit b k = false -> Z.land b (2 ^ k) = 0.
Proof.
  intros Hk Hb. apply Z.bits_inj'. intros n Hn.
  rewrite Z.land_spec, Z.bits_0, Z.pow2_bits_eqb by lia.
  destruct (Z.eqb_spec k n) as [<-|_]; [now rewrite Hb|apply andb_false_r].
Qed.

(** Flipping bit [k] adds or subtracts [2 ^ k]. *)
Lemma lxor_pow2 (b k : Z) :
  0 <= k ->
  Z.lxor b (2 ^ k) = if Z.testbit b k then b - 2 ^ k else b + 2 ^ k.
Proof.
  intros Hk. destruct (Z.testbit b k) eqn:Hb.
  - assert (Hc : Z.testbit (Z.lxor b (2 ^ k)) k = false).
    { rewrite Z.lxor_spec, Hb, Z.pow2_bits_true by lia. reflexivity. }
    pose proof (Z.add_nocarry_lxor _ _ (land_pow2_clear _ _ Hk Hc)) as H.
    rewrite Z.lxor_assoc, Z.lxor_nilpotent, Z.lxor_0_r in H. lia.
  - symmetry. apply Z.add_nocarry_lxor. now apply land_pow2_clear.
Qed.

Lemma flip_changes_sum_mod_256 (s b k : Z) :
  0 <= k < 8 -> (s - b + Z.lxor b (2 ^ k)) mod 256 <> s mod 256.
Proof.
  intros Hk. rewrite lxor_pow2 by lia.
  assert (H : 1 <= 2 ^ k <= 128).
  { split; [apply (Z.pow_le_mono_r 2 0 k); lia|apply (Z.pow_le_mono_r 2 k 7); lia]. }
  destruct (Z.testbit b k); Z.div_mod_to_equations; lia.
Qed.

Lemma sum_flip_bit (message : bytes) (i : nat) (k : Z) :
  (i < length message)%nat ->
  sum (flip_bit message i k) =
  sum message - nth i message 0 + Z.lxor (nth i message 0) (2 ^ k).
Proof.
  revert i. induction message as [|b message IH]; intros i Hi; [simpl in Hi; lia|].
  destruct i as [|i].
  - unfold flip_bit. cbn [firstn skipn nth app sum]. lia.
  - unfold flip_bit in *. cbn [firstn skipn nth app sum] in *.
    rewrite IH by (simpl in Hi; lia). lia.
Qed.

Lemma flip_bit_app (message : bytes) (x : Z) (i : nat) (k : Z) :
  (i < length message)%nat ->
  flip_bit (message ++ [x]) i k = flip_bit message i k ++ [x].
Proof.
  intros Hi. unfold flip_bit.
  rewrite firstn_app, skipn_app, app_nth1 by assumption.
  replace (i - length message)%nat with 0%nat by lia.
  replace (S i - length message)%nat with 0%nat by lia.
  cbn [firstn skipn]. rewrite app_nil_r, <- app_assoc. reflexivity.
Qed.

(** C5. Flipping any one of the eight bits of any byte but the last of a frame
    body [_unpack_message] accepts makes it raise the checksum mismatch. *)
Theorem flipped_bit_fails_checksum (message : bytes) (item : Z * Z * bytes)
  (i : nat) (k : Z) :
  _unpack_message message = Return item ->
  (S i < length message)%nat -> 0 <= k < 8 ->
  exists calculated got,
    _unpack_message (flip_bit message i k) =
    Raise (OmnikInverterPacketInvalidError (ChecksumMismatch calculated got)).
Proof.
  intros Hok Hi Hk. unfold _unpack_message in Hok |- *.
  destruct (pop message) as [[checksum body]|e] eqn:Hpop; [|discriminate].
  apply pop_Return in Hpop. subst message.
  rewrite length_app, Nat.add_comm in Hi. cbn [length Nat.add] in Hi.
  rewrite flip_bit_app, pop_app by lia. cbn [bind] in Hok |- *.
  destruct (Z.eqb_spec checksum (Z.land (sum body) 0xFF)) as [Hck|]; [|discriminate].
  rewrite sum_flip_bit by lia.
  destruct (Z.eqb_spec checksum
              (Z.land (sum body - nth i body 0 + Z.lxor (nth i body 0) (2 ^ k)) 0xFF))
    as [Hck'|_].
  - exfalso. rewrite land_0xFF in Hck, Hck'.
    apply (flip_changes_sum_mod_256 (sum body) (nth i body 0) k Hk). congruence.
  - cbn [negb]. eauto.
Qed.

(** C5 on the top bit of the second byte of the serial number of a reply. *)
Lemma flipped_bit_fails_checksum_witness :
  exists calculated got,
    _unpack_message
      (flip_bit (frame_body (reply_frame 0xB1 123456789 [7; 8])) 4 7) =
    Raise (OmnikInverterPacketInvalidError (ChecksumMismatch calculated got)).
Proof.
  apply (flipped_bit_fails_checksum
           (frame_body (reply_frame 0xB1 123456789 [7; 8])) (0xB1, 123456789, [7; 8]) 4 7).
  - vm_compute. reflexivity.
  - vm_compute. lia.
  - lia.
Defined.

(** ** The byte source and the message stream decoder *)

Lemma skipn_nth {A : Type} (l : list A) (i : nat) (d : A) :
  (i < length l)%nat -> skipn i l = nth i l d :: skipn (S i) l.
Proof.
  revert i. induction l as [|a l IH]; intros i Hi; [simpl in Hi; lia|].
  destruct i as [|i]; [reflexivity|].
  cbn [skipn nth] in *. apply IH. simpl in Hi. lia.
Qed.

Lemma readexactly_enough (reader : StreamReader) (n : Z) :
  0 <= n <= len (buffer reader) ->
  readexactly reader n =
  Return (firstn (Z.to_nat n) (buffer reader),
          mkReader (skipn (Z.to_nat n) (buffer reader)) (requests reader ++ [n])).
Proof.
  intros Hn. unfold readexactly.
  destruct (Z.ltb_spec n 0); [lia|].
  destruct (Z.ltb_spec (len (buffer reader)) n); [lia|]. reflexivity.
Qed.

Lemma readexactly_Return (reader reader' : StreamReader) (n : Z) (data : bytes) :
  readexactly reader n = Return (data, reader') ->
  0 <= n /\ buffer reader = data ++ buffer reader' /\
  length data = Z.to_nat n /\ requests reader' = requests reader ++ [n].
Proof.
  unfold readexactly, len.
  destruct (Z.ltb_spec n 0); [discriminate|].
  destruct (Z.ltb_spec (Z.of_nat (length (buffer reader))) n); [discriminate|].
  intros H1. injection H1 as <- <-. cbn [buffer requests].
  rewrite firstn_skipn, length_firstn. repeat split; try lia.
Qed.

Lemma readbyte_cons (b : Z) (rest : bytes) (log : list Z) :
  readbyte (mkReader (b :: rest) log) = Return (b, mkReader rest (log ++ [1])).
Proof.
  unfold readbyte. rewrite readexactly_enough.
  - reflexivity.
  - unfold len. cbn [buffer length]. lia.
Qed.

Lemma readbyte_Return (reader reader' : StreamReader) (b : Z) :
  readbyte reader = Return (b, reader') ->
  buffer reader = b :: buffer reader' /\ requests reader' = requests reader ++ [1].
Proof.
  unfold readbyte.
  destruct (readexactly reader 1) as [[data r]|e] eqn:E; [|discriminate].
  apply readexactly_Return in E. destruct E as (_ & Hb & Hl & Hr).
  cbn [bind]. destruct data as [|x [|y data]]; try discriminate.
  intros H. injection H as -> ->. auto.
Qed.

(** An iteration that starts at a start marker followed by the length byte
    [L]: the next [L + 11] bytes are read in one request, then the end
    marker, and [_unpack_message] receives [L] followed by these bytes. *)
Lemma unpack_messages_frame (L : Z) (rest : bytes) (log : list Z) :
  0 <= L -> L + 11 < len rest -> nth (Z.to_nat (L + 11)) rest 0 = MESSAGE_END ->
  _unpack_messages (mkReader (MESSAGE_START :: L :: rest) log) =
  match _unpack_message (L :: firstn (Z.to_nat (L + 11)) rest) with
  | Return item =>
      Yield item (mkReader (skipn (Z.to_nat (L + 12)) rest)
                    (log ++ [1; 1; L + 11; 1]))
  | Raise e => Throw e
  end.
Proof.
  intros HL Hlen Hend. unfold len in Hlen.
  unfold _unpack_messages.
  rewrite readbyte_cons. cbn [bind Z.eqb MESSAGE_START Pos.eqb negb].
  rewrite readbyte_cons. cbn [bind]. cbv zeta.
  change (L + MESSAGE_HEADER_SIZE - 1) with (L + 12 - 1).
  replace (L + 12 - 1) with (L + 11) by lia.
  rewrite readexactly_enough by (unfold len; cbn [buffer]; lia).
  cbn [bind buffer requests].
  replace (len (L :: firstn (Z.to_nat (L + 11)) rest) =? L + MESSAGE_HEADER_SIZE) with true.
  2:{ symmetry. apply Z.eqb_eq. unfold len, MESSAGE_HEADER_SIZE.
      cbn [length]. rewrite length_firstn. lia. }
  cbn [negb].
  rewrite (skipn_nth rest (Z.to_nat (L + 11)) 0) by lia.
  rewrite readbyte_cons, Hend. cbn [bind]. rewrite Z.eqb_refl. cbn [negb].
  replace (S (Z.to_nat (L + 11))) with (Z.to_nat (L + 12)) by lia.
  rewrite <- !app_assoc.
  destruct (_unpack_message (L :: firstn (Z.to_nat (L + 11)) rest)); reflexivity.
Qed.

(** C2, as the code has it. After a start marker and a length byte [L], one
    request reads exactly [L + MESSAGE_HEADER_SIZE - 1] further bytes, where
    [MESSAGE_HEADER_SIZE] is 12 (length, separator, type, eight bytes of
    serial number and checksum), that is [L + 11] bytes; the frame body handed
    to [_unpack_message] is [L] followed by these bytes, and the end marker is
    read after them. *)
Theorem unpack_messages_reads_frame (L : Z) (rest : bytes) (log : list Z) :
  0 <= L -> L + 11 < len rest -> nth (Z.to_nat (L + 11)) rest 0 = MESSAGE_END ->
  MESSAGE_HEADER_SIZE = 12 /\
  _unpack_messages (mkReader (MESSAGE_START :: L :: rest) log) =
  match
    _unpack_message (L :: firstn (Z.to_nat (L + MESSAGE_HEADER_SIZE - 1)) rest)
  with
  | Return item =>
      Yield item (mkReader (skipn (Z.to_nat (L + MESSAGE_HEADER_SIZE)) rest)
                    (log ++ [1; 1; L + MESSAGE_HEADER_SIZE - 1; 1]))
  | Raise e => Throw e
  end.
Proof.
  intros HL Hlen Hend. split; [reflexivity|].
  change MESSAGE_HEADER_SIZE with 12.
  replace (L + 12 - 1) with (L + 11) by lia.
  now apply unpack_messages_frame.
Qed.

(** C2 on a frame with a payload of two bytes: 13 bytes are read after the
    length byte. *)
Lemma unpack_messages_reads_frame_witness :
  MESSAGE_HEADER_SIZE = 12 /\
  _unpack_messages
    (mkReader (MESSAGE_START :: 2 :: [0x41; 0xB1; 1; 0; 0; 0; 1; 0; 0; 0; 7; 8; 0x05; 0x16; 0xFF]) []) =
  match
    _unpack_message
      (2 :: firstn (Z.to_nat (2 + MESSAGE_HEADER_SIZE - 1))
              [0x41; 0xB1; 1; 0; 0; 0; 1; 0; 0; 0; 7; 8; 0x05; 0x16; 0xFF])
  with
  | Return item =>
      Yield item
        (mkReader
           (skipn (Z.to_nat (2 + MESSAGE_HEADER_SIZE))
              [0x41; 0xB1; 1; 0; 0; 0; 1; 0; 0; 0; 7; 8; 0x05; 0x16; 0xFF])
           ([] ++ [1; 1; 2 + MESSAGE_HEADER_SIZE - 1; 1]))
  | Raise e => Throw e
  end.
Proof.
  apply (unpack_messages_reads_frame 2
           [0x41; 0xB1; 1; 0; 0; 0; 1; 0; 0; 0; 7; 8; 0x05; 0x16; 0xFF] []).
  - lia.
  - vm_compute. reflexivity.
  - reflexivity.
Defined.

(** C2, as the specification states it, fails on a frame with an empty
    payload: after the length byte 0 the decoder asks for 11 bytes in one
    request, and not for the [0 + 11 - 1] the header size 11 would give. *)
Lemma header_size_is_not_11 :
  exists item reader,
    _unpack_messages (mkReader (reply_frame 0xB1 1 [] ++ [0xFF]) []) = Yield item reader /\
    requests reader = [1; 1; 11; 1] /\
    nth 2 (requests reader) 0 <> claimed_body_read 0.
Proof.
  do 2 eexists. split; [vm_compute; reflexivity|].
  split; [reflexivity|]. vm_compute. discriminate.
Qed.

(** C8. When the first byte of the source is 0xFF, the first resumption of
    the generator ends the iteration: the items it yields are none, and no
    exception is raised. *)
Theorem terminator_ends_stream (rest : bytes) (log : list Z) :
  _unpack_messages (mkReader (0xFF :: rest) log) = StopAsyncIteration /\
  stream_yields (mkReader (0xFF :: rest) log) [] EndOfMessages /\
  (forall items e,
      stream_yields (mkReader (0xFF :: rest) log) items e ->
      items = [] /\ e = EndOfMessages).
Proof.
  assert (H : _unpack_messages (mkReader (0xFF :: rest) log) = StopAsyncIteration).
  { unfold _unpack_messages. rewrite readbyte_cons. reflexivity. }
  split; [exact H|]. split; [now constructor|].
  intros items e Hy. inversion Hy; subst; try congruence. auto.
Qed.

(** ** The session loop *)

(** Every item the generator yields costs the source at least one byte. *)
Lemma yield_consumes (reader reader' : StreamReader) (item : Z * Z * bytes) :
  _unpack_messages reader = Yield item reader' ->
  (length (buffer reader') < length (buffer reader))%nat.
Proof.
  unfold _unpack_messages.
  destruct (readbyte reader) as [[b r1]|e] eqn:E1; [|discriminate].
  apply readbyte_Return in E1. destruct E1 as [B1 _]. cbn [bind].
  destruct (b =? 0xFF); [discriminate|].
  destruct (negb (b =? MESSAGE_START)); [discriminate|].
  destruct (readbyte r1) as [[L r2]|e] eqn:E2; [|discriminate].
  apply readbyte_Return in E2. destruct E2 as [B2 _]. cbn [bind]. cbv zeta.
  destruct (readexactly r2 _) as [[data r3]|e] eqn:E3; [|discriminate].
  apply readexactly_Return in E3. destruct E3 as (_ & B3 & _ & _). cbn [bind].
  destruct (negb (len (L :: data) =? _)); [discriminate|].
  destruct (readbyte r3) as [[x r4]|e] eqn:E4; [|discriminate].
  apply readbyte_Return in E4. destruct E4 as [B4 _]. cbn [bind].
  destruct (negb (x =? MESSAGE_END)); [discriminate|].
  destruct (_unpack_message (L :: data)); [|discriminate].
  cbn [bind]. intros H. injection H as _ <-.
  rewrite B1, B2, B3, B4. cbn [length]. rewrite length_app. cbn [length]. lia.
Qed.

Lemma stream_yields_length (reader : StreamReader) (items : list (Z * Z * bytes))
  (e : stream_end) :
  stream_yields reader items e -> (length items <= length (buffer reader))%nat.
Proof.
  induction 1 as [| |reader item reader' items e Hy _ IH]; cbn [length]; try lia.
  apply yield_consumes in Hy. lia.
Qed.

(** The loop ends within one more iteration than the source holds bytes. *)
Lemma parse_loop_enough (fuel : nat) :
  forall serial_number info log reader,
    (length (buffer reader) < fuel)%nat ->
    exists out, parse_loop fuel serial_number info log reader = Some out.
Proof.
  induction fuel as [|fuel IH]; intros serial_number info log reader Hf; [lia|].
  cbn [parse_loop].
  destruct (_unpack_messages reader) as [[[message_type reply] message] reader'| |e] eqn:E.
  - apply yield_consumes in E.
    assert (Hf' : (length (buffer reader') < fuel)%nat) by lia.
    destruct (message_type =? MESSAGE_TYPE_INFORMATION_REPLY).
    { destruct (_parse_information_reply message); eauto. }
    destruct (message_type =? MESSAGE_TYPE_STRING).
    { destruct (decode_utf8 message); eauto. }
    destruct (message_type =? MESSAGE_TYPE_ERROR_STRING); eauto.
  - destruct info; eauto.
  - eauto.
Qed.

(** [parse_messages] always returns or raises. *)
Lemma parse_messages_total (serial_number : Z) (reader : StreamReader) :
  exists log r, parse_messages serial_number reader = Some (log, r).
Proof.
  destruct (parse_loop_enough (S (length (buffer reader))) serial_number None []
              reader (Nat.lt_succ_diag_r _)) as [[log r] H].
  exists log, r. exact H.
Qed.

(** The serial number asked for decides nothing but the debug records. *)
Lemma parse_loop_serial_irrelevant (fuel : nat) :
  forall serial1 serial2 info log1 log2 reader,
    without_serial_debug log1 = without_serial_debug log2 ->
    observable (parse_loop fuel serial1 info log1 reader) =
    observable (parse_loop fuel serial2 info log2 reader).
Proof.
  unfold observable.
  induction fuel as [|fuel IH]; intros serial1 serial2 info log1 log2 reader Hlog;
    [reflexivity|].
  cbn [parse_loop].
  destruct (_unpack_messages reader) as [[[message_type reply] message] reader'| |e].
  - set (l1 := if negb (reply =? serial1) then _ else log1).
    set (l2 := if negb (reply =? serial2) then _ else log2).
    assert (Hl : without_serial_debug l1 = without_serial_debug l2).
    { subst l1 l2. unfold without_serial_debug in *.
      destruct (negb (reply =? serial1)), (negb (reply =? serial2));
        rewrite ?filter_app; cbn [filter]; rewrite ?app_nil_r; exact Hlog. }
    clearbody l1 l2.
    assert (Hadd : forall r, without_serial_debug (l1 ++ [r]) = without_serial_debug (l2 ++ [r])).
    { intros r. unfold without_serial_debug in *. rewrite !filter_app. now f_equal. }
    destruct (message_type =? MESSAGE_TYPE_INFORMATION_REPLY).
    { assert (Hl' : without_serial_debug
                      (match info with Some _ => l1 ++ [WarningMultipleReplies] | None => l1 end) =
                    without_serial_debug
                      (match info with Some _ => l2 ++ [WarningMultipleReplies] | None => l2 end))
        by (destruct info; auto).
      destruct (_parse_information_reply message); [now apply IH|].
      cbn [option_map]. now rewrite Hl'. }
    destruct (message_type =? MESSAGE_TYPE_STRING).
    { destruct (decode_utf8 message); [now apply IH|].
      cbn [option_map]. now rewrite Hl. }
    destruct (message_type =? MESSAGE_TYPE_ERROR_STRING); [now apply IH|].
    cbn [option_map]. now rewrite Hl.
  - destruct info; cbn [option_map]; now rewrite Hlog.
  - cbn [option_map]. now rewrite Hlog.
Qed.

(** When the stream ends without an information reply, so does the loop
    without one: it raises. *)
Lemma parse_loop_without_reply (reader : StreamReader)
  (items : list (Z * Z * bytes)) (e : stream_end) :
  stream_yields reader items e -> e = EndOfMessages ->
  Forall (fun item => message_type_of item <> MESSAGE_TYPE_INFORMATION_REPLY) items ->
  forall fuel serial_number log,
    (length items < fuel)%nat ->
    exists log' exn,
      parse_loop fuel serial_number None log reader = Some (log', Raise exn) /\
      (Forall only_logged items ->
       exn = OmnikInverterPacketInvalidError NoInformationReply) /\
      (exn = OmnikInverterPacketInvalidError NoInformationReply \/
       exn = UnicodeDecodeError \/
       exists message_type message,
         exn = OmnikInverterPacketInvalidError (UnknownMessageType message_type message)).
Proof.
  induction 1 as [reader Hs|reader e Ht|reader item reader' items e Hy _ IH];
    intros He Hno fuel serial_number log Hf.
  - destruct fuel as [|fuel]; [cbn [length] in Hf; lia|].
    cbn [parse_loop]. rewrite Hs. eauto 6.
  - discriminate.
  - destruct fuel as [|fuel]; [lia|].
    cbn [length] in Hf. apply Forall_cons_iff in Hno. destruct Hno as [Hn Hno].
    destruct item as [[message_type reply] message]. unfold message_type_of in Hn.
    cbn [fst] in Hn.
    cbn [parse_loop]. rewrite Hy.
    destruct (Z.eqb_spec message_type MESSAGE_TYPE_INFORMATION_REPLY) as [|_];
      [contradiction|].
    set (l := if negb (reply =? serial_number) then _ else log). clearbody l.
    destruct (Z.eqb_spec message_type MESSAGE_TYPE_STRING) as [Hs|Hs].
    { destruct (decode_utf8 message) as [text|exn] eqn:Hd.
      - destruct (IH He Hno fuel serial_number (l ++ [WarningTextMessage (strip text)]))
          as (log' & exn & Hp & Hall & Hkind); [lia|].
        exists log', exn. split; [exact Hp|]. split; [|exact Hkind].
        intros Hl. apply Hall. now apply Forall_cons_iff in Hl.
      - exists l, exn. split; [reflexivity|]. split.
        + intros Hl. apply Forall_cons_iff in Hl.
          destruct Hl as [[[_ [text Ht]]|Hl] _].
          * congruence.
          * subst message_type. discriminate.
        + apply decode_utf8_Raise in Hd. auto. }
    destruct (Z.eqb_spec message_type MESSAGE_TYPE_ERROR_STRING) as [He'|He'].
    { destruct (IH He Hno fuel serial_number (l ++ [WarningErrorMessage message]))
        as (log' & exn & Hp & Hall & Hkind); [lia|].
      exists log', exn. split; [exact Hp|]. split; [|exact Hkind].
      intros Hl. apply Hall. now apply Forall_cons_iff in Hl. }
    eexists _, _. split; [reflexivity|]. split.
    + intros Hl. apply Forall_cons_iff in Hl. destruct Hl as [[[? _]|?] _]; contradiction.
    + eauto 6.
Qed.

(** More fuel than the loop needs changes nothing. *)
Lemma parse_loop_more_fuel (fuel : nat) :
  forall serial_number info log reader out,
    parse_loop fuel serial_number info log reader = Some out ->
    forall k, parse_loop (fuel + k) serial_number info log reader = Some out.
Proof.
  induction fuel as [|fuel IH]; intros serial_number info log reader out H k;
    [discriminate|].
  cbn [parse_loop Nat.add] in *.
  destruct (_unpack_messages reader) as [[[message_type reply] message] reader'| |e];
    [|exact H|exact H].
  destruct (message_type =? MESSAGE_TYPE_INFORMATION_REPLY).
  { destruct (_parse_information_reply message); [now apply IH|exact H]. }
  destruct (message_type =? MESSAGE_TYPE_STRING).
  { destruct (decode_utf8 message); [now apply IH|exact H]. }
  destruct (message_type =? MESSAGE_TYPE_ERROR_STRING); [now apply IH|exact H].
Qed.

(** The loop goes through messages it only logs: [info] is kept, the log
    grows, and one iteration is spent on each. *)
Lemma parse_loop_only_logged (before : list (Z * Z * bytes)) :
  forall reader items e,
    stream_yields reader (before ++ items) e ->
    Forall only_logged before ->
    exists reader',
      stream_yields reader' items e /\
      forall fuel serial_number info log,
      exists log',
        parse_loop (length before + fuel) serial_number info log reader =
        parse_loop fuel serial_number info (log ++ log') reader'.
Proof.
  induction before as [|item before IH]; intros reader items e Hy Hall.
  - exists reader. split; [exact Hy|].
    intros fuel serial_number info log. exists []. now rewrite app_nil_r.
  - cbn [app] in Hy. inversion Hy as [| |r item' r1 items' e' Hstep Hy1]; subst.
    apply Forall_cons_iff in Hall. destruct Hall as [Hitem Hall].
    destruct (IH r1 items e Hy1 Hall) as (reader' & Hy' & Hloop).
    exists reader'. split; [exact Hy'|].
    intros fuel serial_number info log.
    cbn [length Nat.add parse_loop]. rewrite Hstep.
    destruct item as [[message_type reply] message].
    set (debug := if negb (reply =? serial_number)
                  then [DebugSerialNotEqual reply serial_number] else []).
    replace (if negb (reply =? serial_number)
             then log ++ [DebugSerialNotEqual reply serial_number] else log)
      with (log ++ debug)
      by (subst debug; destruct (negb (reply =? serial_number));
          [reflexivity|apply app_nil_r]).
    destruct Hitem as [[-> [text Htext]]| ->].
    + cbn [Z.eqb MESSAGE_TYPE_STRING MESSAGE_TYPE_INFORMATION_REPLY Pos.eqb].
      rewrite Htext.
      destruct (Hloop fuel serial_number info
                  ((log ++ debug) ++ [WarningTextMessage (strip text)])) as [log' Hl].
      exists (debug ++ WarningTextMessage (strip text) :: log').
      rewrite Hl. f_equal. rewrite <- !app_assoc. reflexivity.
    + cbn [Z.eqb MESSAGE_TYPE_STRING MESSAGE_TYPE_INFORMATION_REPLY
             MESSAGE_TYPE_ERROR_STRING Pos.eqb].
      destruct (Hloop fuel serial_number info
                  ((log ++ debug) ++ [WarningErrorMessage message])) as [log' Hl].
      exists (debug ++ WarningErrorMessage message :: log').
      rewrite Hl. f_equal. rewrite <- !app_assoc. reflexivity.
Qed.

(** A frame body of the announced length, between its markers, at the head of
    the source. *)
Lemma unpack_messages_body (L : Z) (body rest : bytes) (log : list Z) :
  0 <= L -> length body = Z.to_nat (L + 11) ->
  _unpack_messages (mkReader (MESSAGE_START :: L :: body ++ MESSAGE_END :: rest) log) =
  match _unpack_message (L :: body) with
  | Return item => Yield item (mkReader rest (log ++ [1; 1; L + 11; 1]))
  | Raise e => Throw e
  end.
Proof.
  intros HL Hlen. rewrite unpack_messages_frame.
  - rewrite (firstn_app_exact _ _ _ Hlen).
    replace (Z.to_nat (L + 12)) with (1 + Z.to_nat (L + 11))%nat by lia.
    rewrite <- skipn_skipn, (skipn_app_exact _ _ _ Hlen). reflexivity.
  - exact HL.
  - unfold len. rewrite length_app. cbn [length]. lia.
  - rewrite <- Hlen, app_nth2, Nat.sub_diag by lia. reflexivity.
Qed.

(** A reply frame at the head of the source is yielded as one item, and the
    source is left at the byte after its end marker. *)
Lemma unpack_messages_reply_frame (message_type serial_number : Z)
  (message rest : bytes) (log : list Z) :
  0 <= serial_number < 2 ^ 32 ->
  _unpack_messages (mkReader (reply_frame message_type serial_number message ++ rest) log) =
  Yield (message_type, serial_number, message)
    (mkReader rest (log ++ [1; 1; len message + 11; 1])).
Proof.
  intros Hs.
  pose proof (unpack_reply_frame_body message_type serial_number message Hs) as Hbody.
  unfold reply_frame in *. rewrite frame_body_of in Hbody. cbv zeta in *.
  remember (Z.land _ 0xFF) as ck eqn:Hck. clear Hck.
  remember (le_bytes 4 serial_number ++ le_bytes 4 serial_number ++ message)
    as serials_payload eqn:Hsp.
  assert (Hlen : length serials_payload = (8 + length message)%nat).
  { subst serials_payload. rewrite !length_app, !le_bytes_length. lia. }
  clear Hsp. cbn [app] in *.
  replace ((serials_payload ++ [ck; MESSAGE_END]) ++ rest)
    with ((serials_payload ++ [ck]) ++ MESSAGE_END :: rest)
    by (rewrite <- !app_assoc; reflexivity).
  pose proof (unpack_messages_body (len message)
                (MESSAGE_RECV_SEP :: message_type :: serials_payload ++ [ck])
                rest log) as H.
  cbn [app] in H. rewrite H.
  - now rewrite Hbody.
  - unfold len. lia.
  - cbn [length]. rewrite length_app, Hlen. cbn [length]. unfold len. lia.
Qed.

(** C9. When the message stream ends, without an exception, and none of the
    messages it produced is an information reply, [parse_messages] does not
    return: it raises. The exception is the packet error "None of the messages
    contained an information reply!" whenever the loop has got to the end of
    the stream, that is when every message was one it only logs; a message it
    refuses (an unknown type, or a text that does not decode) has made it
    raise on that message, before the stream ended. *)
Theorem no_information_reply_raises (serial_number : Z) (reader : StreamReader)
  (items : list (Z * Z * bytes)) :
  stream_yields reader items EndOfMessages ->
  Forall (fun item => message_type_of item <> MESSAGE_TYPE_INFORMATION_REPLY) items ->
  exists log exn,
    parse_messages serial_number reader = Some (log, Raise exn) /\
    (Forall only_logged items ->
     exn = OmnikInverterPacketInvalidError NoInformationReply) /\
    (exn = OmnikInverterPacketInvalidError NoInformationReply \/
     exn = UnicodeDecodeError \/
     exists message_type message,
       exn = OmnikInverterPacketInvalidError (UnknownMessageType message_type message)).
Proof.
  intros Hy Hno. unfold parse_messages.
  apply (parse_loop_without_reply reader items EndOfMessages Hy eq_refl Hno).
  apply stream_yields_length in Hy. lia.
Qed.

(** C9 on a stream that holds one error string. *)
Lemma no_information_reply_raises_witness :
  exists log exn,
    parse_messages 123456789
      (mkReader (reply_frame MESSAGE_TYPE_ERROR_STRING 123456789 [7; 8] ++ [0xFF]) []) =
    Some (log, Raise exn) /\
    (Forall only_logged [(MESSAGE_TYPE_ERROR_STRING, 123456789, [7; 8])] ->
     exn = OmnikInverterPacketInvalidError NoInformationReply) /\
    (exn = OmnikInverterPacketInvalidError NoInformationReply \/
     exn = UnicodeDecodeError \/
     exists message_type message,
       exn = OmnikInverterPacketInvalidError (UnknownMessageType message_type message)).
Proof.
  apply (no_information_reply_raises 123456789
           (mkReader (reply_frame MESSAGE_TYPE_ERROR_STRING 123456789 [7; 8] ++ [0xFF]) [])
           [(MESSAGE_TYPE_ERROR_STRING, 123456789, [7; 8])]).
  - eapply yields_item; [vm_compute; reflexivity|].
    apply yields_stop. vm_compute. reflexivity.
  - constructor; [|constructor]. vm_compute. discriminate.
Defined.

(** The loop goes through messages it only logs, and writes for each what
    [logged_records] says. *)
Lemma parse_loop_logged (before : list (Z * Z * bytes)) :
  forall reader items e,
    stream_yields reader (before ++ items) e ->
    Forall only_logged before ->
    exists reader',
      stream_yields reader' items e /\
      forall fuel serial_number info log,
        parse_loop (length before + fuel) serial_number info log reader =
        parse_loop fuel serial_number info
          (log ++ logged_records serial_number before) reader'.
Proof.
  induction before as [|item before IH]; intros reader items e Hy Hall.
  - exists reader. split; [exact Hy|].
    intros fuel serial_number info log. cbn [logged_records flat_map].
    now rewrite app_nil_r.
  - cbn [app] in Hy. inversion Hy as [| |r item' r1 items' e' Hstep Hy1]; subst.
    apply Forall_cons_iff in Hall. destruct Hall as [Hitem Hall].
    destruct (IH r1 items e Hy1 Hall) as (reader' & Hy' & Hloop).
    exists reader'. split; [exact Hy'|].
    intros fuel serial_number info log.
    cbn [length Nat.add parse_loop]. rewrite Hstep.
    destruct item as [[message_type reply] message].
    cbn [logged_records flat_map]. fold (logged_records serial_number before).
    set (debug := if negb (reply =? serial_number)
                  then [DebugSerialNotEqual reply serial_number] else []).
    replace (if negb (reply =? serial_number)
             then log ++ [DebugSerialNotEqual reply serial_number] else log)
      with (log ++ debug)
      by (subst debug; destruct (negb (reply =? serial_number));
          [reflexivity|apply app_nil_r]).
    destruct Hitem as [[-> [text Htext]]| ->].
    + cbn [Z.eqb MESSAGE_TYPE_STRING MESSAGE_TYPE_INFORMATION_REPLY Pos.eqb].
      rewrite Htext, Hloop. f_equal. rewrite <- !app_assoc. reflexivity.
    + cbn [Z.eqb MESSAGE_TYPE_STRING MESSAGE_TYPE_INFORMATION_REPLY
             MESSAGE_TYPE_ERROR_STRING Pos.eqb].
      rewrite Hloop. f_equal. rewrite <- !app_assoc. reflexivity.
Qed.

(** C10. A stream that ends after an information reply whose two serial
    numbers agree with each other and not with the serial number asked for,
    with any messages that are only logged before and after it:
    [parse_messages] returns the record decoded from the reply, and its log is
    the records of the messages before the reply, the debug record about the
    disagreement, and the records of every message after the reply, which it
    has gone on to read up to the end of the stream. On any stream, the serial
    number asked for changes nothing in what [parse_messages] returns or
    raises, nor in its log apart from these debug records. *)
Theorem serial_disagreement_only_logged (serial_number reply_serial_number : Z)
  (reader : StreamReader) (before after : list (Z * Z * bytes))
  (message : bytes) (info : information_reply) :
  stream_yields reader
    (before ++ (MESSAGE_TYPE_INFORMATION_REPLY, reply_serial_number, message) :: after)
    EndOfMessages ->
  Forall only_logged before -> Forall only_logged after ->
  reply_serial_number <> serial_number ->
  _parse_information_reply message = Return info ->
  parse_messages serial_number reader =
  Some (logged_records serial_number before
          ++ DebugSerialNotEqual reply_serial_number serial_number
          :: logged_records serial_number after,
        Return info) /\
  (forall other_serial_number,
      observable (parse_messages serial_number reader) =
      observable (parse_messages other_serial_number reader)).
Proof.
  intros Hy Hbefore Hafter Hne Hinfo. split.
  - pose proof (stream_yields_length _ _ _ Hy) as Hlen.
    rewrite length_app in Hlen. cbn [length] in Hlen.
    destruct (parse_loop_logged before _ _ _ Hy Hbefore) as (r1 & Hy1 & Hloop1).
    inversion Hy1 as [| |r item r2 items e Hstep Hy2]; subst.
    rewrite <- (app_nil_r after) in Hy2.
    destruct (parse_loop_logged after _ _ _ Hy2 Hafter) as (r3 & Hy3 & Hloop3).
    inversion Hy3 as [r Hstop| |]; subst.
    unfold parse_messages.
    replace (S (length (buffer reader)))
      with ((length before + S (length after + 1))
            + (length (buffer reader) - (length before + S (length after))))%nat by lia.
    apply parse_loop_more_fuel.
    rewrite Hloop1. cbn [app parse_loop]. rewrite Hstep.
    destruct (Z.eqb_spec reply_serial_number serial_number) as [|_]; [contradiction|].
    cbn [negb]. rewrite Z.eqb_refl, Hinfo, Hloop3.
    cbn [parse_loop]. rewrite Hstop, <- app_assoc. reflexivity.
  - intros other. unfold parse_messages.
    now apply parse_loop_serial_irrelevant.
Qed.

(** C10 on a stream of a text message, an information reply and an error
    string, all with a serial number that was not asked for: the log ends with
    the records of the error string, read after the reply. *)
Lemma serial_disagreement_only_logged_witness :
  let reader :=
    mkReader
      (reply_frame MESSAGE_TYPE_STRING 987654321 [111; 107; 10]
         ++ reply_frame MESSAGE_TYPE_INFORMATION_REPLY 987654321 sample_payload
         ++ reply_frame MESSAGE_TYPE_ERROR_STRING 987654321 [7; 8]
         ++ [0xFF; 0xFF]) [] in
  parse_messages 123456789 reader =
  Some ([DebugSerialNotEqual 987654321 123456789; WarningTextMessage [111; 107];
         DebugSerialNotEqual 987654321 123456789;
         DebugSerialNotEqual 987654321 123456789; WarningErrorMessage [7; 8]],
        Return sample_information_reply) /\
  (forall other_serial_number,
      observable (parse_messages 123456789 reader) =
      observable (parse_messages other_serial_number reader)).
Proof.
  apply (serial_disagreement_only_logged 123456789 987654321 _
           [(MESSAGE_TYPE_STRING, 987654321, [111; 107; 10])]
           [(MESSAGE_TYPE_ERROR_STRING, 987654321, [7; 8])]
           sample_payload sample_information_reply).
  - cbn [app].
    eapply yields_item; [vm_compute; reflexivity|].
    eapply yields_item; [vm_compute; reflexivity|].
    eapply yields_item; [vm_compute; reflexivity|].
    apply yields_stop. vm_compute. reflexivity.
  - constructor; [|constructor]. left. split; [reflexivity|].
    eexists. vm_compute. reflexivity.
  - constructor; [|constructor]. right. reflexivity.
  - discriminate.
  - vm_compute. reflexivity.
Defined.

(** ** The information reply decoder *)

Lemma c_ushort_at (data : bytes) (off : nat) :
  (S off < length data)%nat ->
  from_bytes_big (slice data off (off + 2)) = u16_at data off.
Proof.
  intros H. unfold slice, from_bytes_big, u16_at.
  replace (off + 2 - off)%nat with 2%nat by lia.
  rewrite (skipn_nth data off 0) by lia.
  rewrite (skipn_nth data (S off) 0) by lia.
  cbn [firstn rev app from_bytes_little]. lia.
Qed.

(** The structure laid over a payload of 125 bytes: every field at the offset
    the table of the specification gives it. *)
Lemma from_buffer_copy_layout (data : bytes) :
  length data = 125%nat ->
  _TcpData.from_buffer_copy data =
  Return
    {| _TcpData.padding0 := until_nul (slice data 0 3);
       _TcpData.serial_number := until_nul (slice data 3 19);
       _TcpData.temperature := u16_at data 19;
       _TcpData.dc_input_voltage := map (u16_at data) [21; 23; 25]%nat;
       _TcpData.dc_input_current := map (u16_at data) [27; 29; 31]%nat;
       _TcpData.ac_output_current := map (u16_at data) [33; 35; 37]%nat;
       _TcpData.ac_output_voltage := map (u16_at data) [39; 41; 43]%nat;
       _TcpData.ac_output :=
         map (fun off => _AcOutput.mk (u16_at data off) (u16_at data (off + 2)))
           [45; 49; 53]%nat;
       _TcpData.solar_energy_today := u16_at data 57;
       _TcpData.solar_energy_total := from_bytes_big (slice data 59 63);
       _TcpData.solar_hours_total := from_bytes_big (slice data 63 67);
       _TcpData.inverter_active := u16_at data 67;
       _TcpData.padding1 := slice data 69 73;
       _TcpData.unknown0 := u16_at data 73;
       _TcpData.padding2 := slice data 75 85;
       _TcpData.firmware := until_nul (slice data 85 101);
       _TcpData.padding3 := slice data 101 105;
       _TcpData.firmware_slave := until_nul (slice data 105 121);
       _TcpData.padding4 := slice data 121 125 |}.
Proof.
  intros H. unfold _TcpData.from_buffer_copy.
  change _TcpData.sizeof with 125%nat. rewrite H. cbn [Nat.ltb Nat.leb].
  cbv [_TcpData._fields_ field_bind field_ret c_char_array c_ushort c_uint
         c_ubyte_array array _AcOutput._fields_ fst snd].
  cbn [Nat.add map].
  repeat match goal with
         | |- context [from_bytes_big (slice data ?a ?b)] =>
             lazymatch eval cbv in (b - a)%nat with
             | 2%nat => change b with (a + 2)%nat; rewrite (c_ushort_at data a) by lia
             end
         end.
  reflexivity.
Qed.

(** The decoder on a payload of 125 bytes, field by field. *)
Lemma parse_information_reply_eq (data : bytes) :
  length data = 125%nat ->
  _parse_information_reply data =
  (serial_number <- decode_utf8 (until_nul (slice data 3 19)) ;;
   inverter_active <- int_to_bool (u16_at data 67) ;;
   firmware <- decode_utf8 (until_nul (slice data 85 101)) ;;
   firmware_slave <- decode_utf8 (until_nul (slice data 105 121)) ;;
   Return
     {| serial_number := serial_number;
        temperature := temperature_to_float (u16_at data 19);
        dc_input_voltage := list_divide_10 (map (u16_at data) [21; 23; 25]%nat);
        dc_input_current := list_divide_10 (map (u16_at data) [27; 29; 31]%nat);
        ac_output_current := list_divide_10 (map (u16_at data) [33; 35; 37]%nat);
        ac_output_voltage := list_divide_10 (map (u16_at data) [39; 41; 43]%nat);
        ac_output_frequency :=
          map (fun off => _AcOutput.get_frequency
                            (_AcOutput.mk (u16_at data off) (u16_at data (off + 2))))
            [45; 49; 53]%nat;
        ac_output_power :=
          map (fun off => _AcOutput.get_power
                            (_AcOutput.mk (u16_at data off) (u16_at data (off + 2))))
            [45; 49; 53]%nat;
        solar_energy_today := int_times_float (u16_at data 57) float_0_01;
        solar_energy_total :=
          int_times_float (from_bytes_big (slice data 59 63)) float_0_1;
        solar_hours_total := from_bytes_big (slice data 63 67);
        inverter_active := inverter_active;
        firmware := firmware;
        firmware_slave := firmware_slave |})%py.
Proof.
  intros H. unfold _parse_information_reply.
  rewrite (from_buffer_copy_layout data H). reflexivity.
Qed.

(** What the decoder returns on a payload of 125 bytes: the fields that need
    no string decoding and no lookup. *)
Lemma parse_information_reply_Return (data : bytes) (info : information_reply) :
  length data = 125%nat ->
  _parse_information_reply data = Return info ->
  temperature info = temperature_to_float (u16_at data 19) /\
  dc_input_voltage info = list_divide_10 (map (u16_at data) [21; 23; 25]%nat) /\
  dc_input_current info = list_divide_10 (map (u16_at data) [27; 29; 31]%nat) /\
  ac_output_current info = list_divide_10 (map (u16_at data) [33; 35; 37]%nat) /\
  ac_output_voltage info = list_divide_10 (map (u16_at data) [39; 41; 43]%nat) /\
  ac_output_frequency info =
  map (fun off => _AcOutput.get_frequency
                    (_AcOutput.mk (u16_at data off) (u16_at data (off + 2))))
    [45; 49; 53]%nat /\
  ac_output_power info =
  map (fun off => _AcOutput.get_power
                    (_AcOutput.mk (u16_at data off) (u16_at data (off + 2))))
    [45; 49; 53]%nat.
Proof.
  intros Hlen. rewrite (parse_information_reply_eq data Hlen).
  destruct (decode_utf8 (until_nul (slice data 3 19))); [|discriminate].
  destruct (int_to_bool (u16_at data 67)); [|discriminate].
  destruct (decode_utf8 (until_nul (slice data 85 101))); [|discriminate].
  destruct (decode_utf8 (until_nul (slice data 105 121))); [|discriminate].
  cbn [bind]. intros H. injection H as <-. cbn. repeat split; reflexivity.
Qed.

(** The decoder returns a record as soon as the three strings decode and
    [inverter_active] is 0 or 1. *)
Lemma parse_information_reply_returns (data : bytes) (sn fw fws : str) :
  length data = 125%nat ->
  decode_utf8 (until_nul (slice data 3 19)) = Return sn ->
  decode_utf8 (until_nul (slice data 85 101)) = Return fw ->
  decode_utf8 (until_nul (slice data 105 121)) = Return fws ->
  u16_at data 67 = 0 \/ u16_at data 67 = 1 ->
  exists info, _parse_information_reply data = Return info.
Proof.
  intros Hlen Hsn Hfw Hfws Hactive.
  rewrite (parse_information_reply_eq data Hlen), Hsn, Hfw, Hfws.
  unfold int_to_bool. destruct Hactive as [-> | ->]; cbn; eauto.
Qed.

(** C3. Every payload of 125 bytes whose three strings are UTF-8 and whose
    [inverter_active] is 0 or 1 decodes to a record, whatever its other
    fields hold, the sentinels included; in this record each AC power is null
    when the u16 at its offset (47, 51, 55) is 65535 and that raw value
    otherwise; each AC frequency is null when the u16 at its offset (45, 49,
    53) is 65535 and the raw value times 0.01 otherwise; the temperature is
    null when the u16 at offset 19 is 65326 and the raw value times 0.1
    otherwise. *)
Theorem sentinel_fields (data : bytes) (serial firmware_text slave_text : str) :
  length data = 125%nat ->
  decode_utf8 (until_nul (slice data 3 19)) = Return serial ->
  decode_utf8 (until_nul (slice data 85 101)) = Return firmware_text ->
  decode_utf8 (until_nul (slice data 105 121)) = Return slave_text ->
  u16_at data 67 = 0 \/ u16_at data 67 = 1 ->
  exists info,
    _parse_information_reply data = Return info /\
    ac_output_power info =
    map (fun off => raw_unless 65535 (u16_at data off)) [47; 51; 55]%nat /\
    ac_output_frequency info =
    map (fun off => scaled_unless 65535 float_0_01 (u16_at data off)) [45; 49; 53]%nat /\
    temperature info = scaled_unless 65326 float_0_1 (u16_at data 19).
Proof.
  intros Hlen Hsn Hfw Hfws Hactive.
  destruct (parse_information_reply_returns data serial firmware_text slave_text
              Hlen Hsn Hfw Hfws Hactive) as [info Hinfo].
  exists info. split; [exact Hinfo|].
  destruct (parse_information_reply_Return data info Hlen Hinfo)
    as (Ht & _ & _ & _ & _ & Hf & Hp).
  rewrite Ht, Hf, Hp. repeat split; reflexivity.
Qed.

(** C3 on [sample_payload_offline]: the temperature 65326 and the powers and
    frequencies 65535 of the two unused phases decode to null, the power 1643
    and the frequency 5002 of the first phase to 1643 and 50.02. *)
Lemma sentinel_fields_witness :
  exists info,
    _parse_information_reply sample_payload_offline = Return info /\
    ac_output_power info = [Some 1643; None; None] /\
    ac_output_frequency info = [Some 0x1.9028f5c28f5c3p+5%float; None; None] /\
    temperature info = None.
Proof.
  destruct (sentinel_fields sample_payload_offline
              (serial_number sample_information_reply)
              (firmware sample_information_reply)
              (firmware_slave sample_information_reply))
    as (info & Hinfo & Hp & Hf & Ht).
  - reflexivity.
  - vm_compute. reflexivity.
  - vm_compute. reflexivity.
  - vm_compute. reflexivity.
  - right. vm_compute. reflexivity.
  - exists info. rewrite Hp, Hf, Ht.
    split; [exact Hinfo|]. repeat split; vm_compute; reflexivity.
Defined.

(** C4, as the code has it. In the record decoded from a payload of 125
    bytes, every element of [dc_input_voltage], [dc_input_current],
    [ac_output_current] and [ac_output_voltage] is null when the u16 at its
    offset is 65535, and the raw value times 0.1 for any other raw value:
    [list_divide_10] gives these fields the sentinel of the power and
    frequency fields. *)
Theorem divided_fields (data : bytes) (info : information_reply) :
  length data = 125%nat ->
  _parse_information_reply data = Return info ->
  dc_input_voltage info =
  map (fun off => scaled_unless 65535 float_0_1 (u16_at data off)) [21; 23; 25]%nat /\
  dc_input_current info =
  map (fun off => scaled_unless 65535 float_0_1 (u16_at data off)) [27; 29; 31]%nat /\
  ac_output_current info =
  map (fun off => scaled_unless 65535 float_0_1 (u16_at data off)) [33; 35; 37]%nat /\
  ac_output_voltage info =
  map (fun off => scaled_unless 65535 float_0_1 (u16_at data off)) [39; 41; 43]%nat.
Proof.
  intros Hlen Hinfo.
  destruct (parse_information_reply_Return data info Hlen Hinfo)
    as (_ & Hdv & Hdc & Hac & Hav & _ & _).
  rewrite Hdv, Hdc, Hac, Hav. repeat split; reflexivity.
Qed.

(** C4 on [sample_payload]. *)
Lemma divided_fields_witness :
  dc_input_voltage sample_information_reply =
  map (fun off => scaled_unless 65535 float_0_1 (u16_at sample_payload off))
    [21; 23; 25]%nat /\
  dc_input_current sample_information_reply =
  map (fun off => scaled_unless 65535 float_0_1 (u16_at sample_payload off))
    [27; 29; 31]%nat /\
  ac_output_current sample_information_reply =
  map (fun off => scaled_unless 65535 float_0_1 (u16_at sample_payload off))
    [33; 35; 37]%nat /\
  ac_output_voltage sample_information_reply =
  map (fun off => scaled_unless 65535 float_0_1 (u16_at sample_payload off))
    [39; 41; 43]%nat.
Proof.
  apply (divided_fields sample_payload sample_information_reply).
  - reflexivity.
  - vm_compute. reflexivity.
Defined.

(** C4, as the specification states it, fails on [sample_payload]: the second
    u16 of [dc_input_voltage], at offset 23, is 65535, and it decodes to null
    and not to 65535 times 0.1. *)
Lemma divide_10_has_a_sentinel :
  exists info,
    _parse_information_reply sample_payload = Return info /\
    u16_at sample_payload 23 = 65535 /\
    nth 1 (dc_input_voltage info) None = None /\
    dc_input_voltage info <>
    map (fun off => Some (int_times_float (u16_at sample_payload off) float_0_1))
      [21; 23; 25]%nat.
Proof.
  exists sample_information_reply.
  split; [vm_compute; reflexivity|].
  split; [reflexivity|]. split; [reflexivity|].
  vm_compute. discriminate.
Qed.

(** C6. Decoding a payload of 125 bytes whose [inverter_active], the u16 at
    offset 67, is neither 0 nor 1 never returns a record: it raises, and the
    exception is one of an invalid field value. It is the [KeyError] of the
    lookup in [int_to_bool], with the raw value as key, unless the
    [serial_number] field, which is decoded before, is not UTF-8 and has
    raised its [UnicodeDecodeError] first. *)
Theorem inverter_active_must_be_0_or_1 (data : bytes) :
  length data = 125%nat ->
  u16_at data 67 <> 0 -> u16_at data 67 <> 1 ->
  exists exn,
    _parse_information_reply data = Raise exn /\
    invalid_field_value exn /\
    ((exists text, decode_utf8 (until_nul (slice data 3 19)) = Return text) ->
     exn = KeyError (u16_at data 67)).
Proof.
  intros Hlen H0 H1. rewrite (parse_information_reply_eq data Hlen).
  unfold int_to_bool.
  destruct (Z.eqb_spec (u16_at data 67) 0) as [|_]; [contradiction|].
  destruct (Z.eqb_spec (u16_at data 67) 1) as [|_]; [contradiction|].
  destruct (decode_utf8 (until_nul (slice data 3 19))) as [text|exn] eqn:E; cbn [bind].
  - exists (KeyError (u16_at data 67)). unfold invalid_field_value. eauto.
  - exists exn. apply decode_utf8_Raise in E. subst exn.
    unfold invalid_field_value. repeat split; auto.
    intros [text Ht]. discriminate.
Qed.

(** C6 on [sample_payload_active_2]. *)
Lemma inverter_active_must_be_0_or_1_witness :
  exists exn,
    _parse_information_reply sample_payload_active_2 = Raise exn /\
    invalid_field_value exn /\
    ((exists text,
         decode_utf8 (until_nul (slice sample_payload_active_2 3 19)) = Return text) ->
     exn = KeyError (u16_at sample_payload_active_2 67)).
Proof.
  apply (inverter_active_must_be_0_or_1 sample_payload_active_2).
  - reflexivity.
  - vm_compute. discriminate.
  - vm_compute. discriminate.
Defined.

(** * Further properties of the frame codec *)

Lemma Return_inj {A : Type} (a b : A) : Return a = Return b -> a = b.
Proof. congruence. Qed.

Lemma is_byteb_spec (b : Z) : is_byteb b = true <-> is_byte b.
Proof.
  unfold is_byteb, is_byte. rewrite andb_true_iff, Z.leb_le, Z.ltb_lt. reflexivity.
Qed.

Lemma le_bytes_wf (n : nat) (x : Z) : wf_bytes (le_bytes n x).
Proof.
  revert x. induction n as [|n IH]; intros x; simpl; constructor.
  - unfold is_byte. apply Z.mod_pos_bound. lia.
  - apply IH.
Qed.

(** [wf_bytes], decided. *)
Lemma wf_bytes_check (l : bytes) : forallb is_byteb l = true -> wf_bytes l.
Proof.
  intros H. apply Forall_forall. intros b Hb.
  apply is_byteb_spec. rewrite forallb_forall in H. now apply H.
Qed.

Lemma land_0xFF_byte (x : Z) : is_byte (Z.land x 0xFF).
Proof. rewrite land_0xFF. unfold is_byte. apply Z.mod_pos_bound. lia. Qed.

Lemma from_bytes_little_bound (l : bytes) :
  wf_bytes l -> 0 <= from_bytes_little l < 256 ^ Z.of_nat (length l).
Proof.
  induction 1 as [|b l Hb _ IH]; [simpl; lia|].
  cbn [from_bytes_little length]. rewrite Nat2Z.inj_succ, Z.pow_succ_r by lia.
  unfold is_byte in Hb. lia.
Qed.

Lemma le_bytes_from_bytes_little (l : bytes) :
  wf_bytes l -> le_bytes (length l) (from_bytes_little l) = l.
Proof.
  induction 1 as [|b l Hb Hl IH]; [reflexivity|].
  cbn [from_bytes_little length le_bytes]. unfold is_byte in Hb.
  replace ((b + 256 * from_bytes_little l) mod 256) with b
    by (Z.div_mod_to_equations; lia).
  replace ((b + 256 * from_bytes_little l) / 256) with (from_bytes_little l)
    by (Z.div_mod_to_equations; lia).
  now rewrite IH.
Qed.

(** When [_pack_message] returns or raises. *)
Lemma pack_message_cases (message_type serial_number : Z) (message : bytes) :
  _pack_message message_type serial_number message =
  if is_byteb (len message) && is_byteb message_type then
    if (0 <=? serial_number) && (serial_number <? 2 ^ 32) then
      Return
        (let body :=
           [len message; MESSAGE_SEND_SEP; message_type]
             ++ le_bytes 4 serial_number ++ le_bytes 4 serial_number ++ message in
         MESSAGE_START :: body ++ [Z.land (sum body) 0xFF; MESSAGE_END])
    else Raise OverflowError
  else Raise ValueError.
Proof.
  unfold _pack_message, bytearray, to_bytes_little. cbn [forallb].
  change (is_byteb MESSAGE_SEND_SEP) with true. cbn [andb]. rewrite andb_true_r.
  destruct (is_byteb (len message) && is_byteb message_type); [|reflexivity].
  cbn [bind]. change (256 ^ Z.of_nat 4) with (2 ^ 32).
  destruct (Z.ltb_spec serial_number 0), (Z.leb_spec (2 ^ 32) serial_number),
    (Z.leb_spec 0 serial_number), (Z.ltb_spec serial_number (2 ^ 32));
    try lia; cbn [orb andb bind]; try reflexivity.
  cbv zeta. f_equal. cbn [app]. f_equal. rewrite <- !app_assoc. reflexivity.
Qed.

(** X1. [_pack_message] returns a frame exactly when the message type is a
    byte, the payload has at most 255 bytes and the serial number fits four
    bytes. It raises [ValueError] when the message type is no byte or the
    payload is longer, and [OverflowError] when these two are in order and the
    serial number is negative or 2^32 or more. *)
Theorem pack_message_returns_or_raises (message_type serial_number : Z)
  (message : bytes) :
  ((is_byte message_type /\ len message <= 255 /\ 0 <= serial_number < 2 ^ 32) <->
   exists frame, _pack_message message_type serial_number message = Return frame) /\
  (~ (is_byte message_type /\ len message <= 255) ->
   _pack_message message_type serial_number message = Raise ValueError) /\
  (is_byte message_type -> len message <= 255 -> ~ 0 <= serial_number < 2 ^ 32 ->
   _pack_message message_type serial_number message = Raise OverflowError).
Proof.
  rewrite pack_message_cases.
  assert (Hlen : is_byteb (len message) = true <-> len message <= 255).
  { rewrite is_byteb_spec. unfold is_byte, len. lia. }
  pose proof (is_byteb_spec message_type) as Htype.
  destruct (is_byteb (len message)), (is_byteb message_type),
    (Z.leb_spec 0 serial_number), (Z.ltb_spec serial_number (2 ^ 32));
    cbn [andb];
    (split; [split; [intros (Ht & Hl & Hs)|intros [frame Hf]]
            |split; [intros Hn|intros Ht Hl Hn]]);
    try discriminate; try reflexivity; eauto;
    try (exfalso; intuition (try lia; try discriminate); fail);
    intuition (try lia; try discriminate).
Qed.

(** X2. A frame [_pack_message] returns for a payload of bytes is made of
    bytes, is 14 bytes longer than the payload, starts with the start marker
    and ends with the end marker, and the byte before the end marker is the
    sum, modulo 256, of all the bytes between the start marker and itself. *)
Theorem pack_message_frame_shape (message_type serial_number : Z)
  (message frame : bytes) :
  wf_bytes message ->
  _pack_message message_type serial_number message = Return frame ->
  wf_bytes frame /\
  length frame = (length message + 14)%nat /\
  hd_error frame = Some MESSAGE_START /\
  last frame 0 = MESSAGE_END /\
  nth (length message + 12) frame 0 =
  Z.land (sum (firstn (length message + 11) (tl frame))) 0xFF.
Proof.
  intros Hwf. rewrite pack_message_cases.
  destruct (is_byteb (len message)) eqn:El; [|discriminate].
  destruct (is_byteb message_type) eqn:Et; [|discriminate].
  cbn [andb]. destruct (_ && _); [|discriminate].
  apply is_byteb_spec in El, Et.
  intros H. apply Return_inj in H. subst frame. cbv zeta.
  set (body := [len message; MESSAGE_SEND_SEP; message_type]
                 ++ le_bytes 4 serial_number ++ le_bytes 4 serial_number ++ message).
  assert (Hbody : length body = (length message + 11)%nat).
  { subst body. rewrite !length_app, !le_bytes_length. cbn [length]. lia. }
  assert (Wbody : wf_bytes body).
  { subst body. unfold wf_bytes. rewrite !Forall_app. repeat split.
    - apply Forall_cons; [exact El|].
      apply Forall_cons; [unfold is_byte, MESSAGE_SEND_SEP; lia|].
      apply Forall_cons; [exact Et|]. apply Forall_nil.
    - apply le_bytes_wf.
    - apply le_bytes_wf.
    - exact Hwf. }
  clearbody body. repeat split.
  - constructor; [unfold is_byte, MESSAGE_START; lia|].
    unfold wf_bytes. rewrite Forall_app. split; [exact Wbody|].
    apply Forall_cons; [apply land_0xFF_byte|].
    apply Forall_cons; [unfold is_byte, MESSAGE_END; lia|]. apply Forall_nil.
  - cbn [length]. rewrite length_app. cbn [length]. lia.
  - change [Z.land (sum body) 0xFF; MESSAGE_END]
      with ([Z.land (sum body) 0xFF] ++ [MESSAGE_END]).
    rewrite app_assoc, app_comm_cons. apply last_last.
  - cbn [tl].
    replace (length message + 12)%nat with (S (length body)) by lia.
    rewrite <- Hbody, firstn_app_exact by reflexivity.
    cbn [nth]. rewrite app_nth2, Nat.sub_diag by lia. reflexivity.
Qed.

(** X2 on the information request for the serial number 123456789. *)
Lemma pack_message_frame_shape_witness :
  let frame := [104; 2; 64; 48; 21; 205; 91; 7; 21; 205; 91; 7; 1; 0; 251; 22] in
  wf_bytes frame /\
  length frame = (length [0x01; 0x00] + 14)%nat /\
  hd_error frame = Some MESSAGE_START /\
  last frame 0 = MESSAGE_END /\
  nth (length [0x01; 0x00] + 12) frame 0 =
  Z.land (sum (firstn (length [0x01; 0x00] + 11) (tl frame))) 0xFF.
Proof.
  apply (pack_message_frame_shape MESSAGE_TYPE_INFORMATION_REQUEST 123456789
           [0x01; 0x00]).
  - solve_wf_bytes.
  - vm_compute. reflexivity.
Defined.

(** X3. [create_information_request] returns, for a serial number that fits
    four bytes, the 16 bytes 68 02 40 30, the serial number twice in little
    endian, 01 00, the checksum and 16; for any other serial number it raises
    [OverflowError]. *)
Theorem create_information_request_frame (serial_number : Z) :
  (0 <= serial_number < 2 ^ 32 ->
   create_information_request serial_number =
   Return ([0x68; 0x02; 0x40; 0x30]
             ++ le_bytes 4 serial_number ++ le_bytes 4 serial_number
             ++ [0x01; 0x00;
                 (0x73 + 2 * sum (le_bytes 4 serial_number)) mod 256; 0x16])) /\
  (~ 0 <= serial_number < 2 ^ 32 ->
   create_information_request serial_number = Raise OverflowError).
Proof.
  unfold create_information_request. rewrite pack_message_cases.
  change (is_byteb (len [0x01; 0x00]) && is_byteb MESSAGE_TYPE_INFORMATION_REQUEST)
    with true. cbv iota.
  destruct (Z.leb_spec 0 serial_number), (Z.ltb_spec serial_number (2 ^ 32));
    cbn [andb]; split; intros; try lia; try reflexivity.
  cbv zeta. rewrite land_0xFF. f_equal. cbn [app]. do 4 f_equal.
  rewrite <- !app_assoc. do 2 f_equal. cbn [app]. do 2 f_equal.
  f_equal. f_equal. cbn [sum]. rewrite !sum_app. cbn [sum].
  unfold len, MESSAGE_SEND_SEP, MESSAGE_TYPE_INFORMATION_REQUEST. cbn [length].
  lia.
Qed.

(** X4. A body of fewer than four bytes is never decoded: [_unpack_message]
    raises [IndexError] on the empty body, and on a longer one [IndexError],
    the checksum mismatch or the invalid separator. *)
Theorem unpack_message_too_short (message : bytes) :
  (length message < 4)%nat ->
  (message = [] -> _unpack_message message = Raise IndexError) /\
  exists exn,
    _unpack_message message = Raise exn /\
    (exn = IndexError \/
     (exists calculated got,
         exn = OmnikInverterPacketInvalidError (ChecksumMismatch calculated got)) \/
     exn = OmnikInverterPacketInvalidError InvalidReceiverSeparator).
Proof.
  intros Hlen. split; [intros ->; reflexivity|].
  destruct message as [|a [|b [|c [|d message]]]];
    [| | | |cbn [length] in Hlen; lia];
    unfold _unpack_message, pop; cbn [rev app bind sum pop0].
  all: repeat match goal with
              | |- context [if ?c then _ else _] => destruct c; cbn [bind pop0]
              end;
    eexists; (split; [reflexivity|]);
    first [left; reflexivity
          |right; left; do 2 eexists; reflexivity
          |right; right; reflexivity].
Qed.

(** X4 on a body of three bytes with a valid checksum. *)
Lemma unpack_message_too_short_witness :
  ([2; 0x41; 0x43] = [] -> _unpack_message [2; 0x41; 0x43] = Raise IndexError) /\
  exists exn,
    _unpack_message [2; 0x41; 0x43] = Raise exn /\
    (exn = IndexError \/
     (exists calculated got,
         exn = OmnikInverterPacketInvalidError (ChecksumMismatch calculated got)) \/
     exn = OmnikInverterPacketInvalidError InvalidReceiverSeparator).
Proof.
  apply (unpack_message_too_short [2; 0x41; 0x43]). cbn [length]. lia.
Defined.

Lemma slices_of_rest (rest : bytes) :
  (8 <= length rest)%nat ->
  rest = slice rest 0 4 ++ slice rest 4 8 ++ slice_from rest 8 /\
  length (slice rest 0 4) = 4%nat /\ length (slice rest 4 8) = 4%nat.
Proof.
  intros H. unfold slice, slice_from.
  change (4 - 0)%nat with 4%nat. change (8 - 4)%nat with 4%nat.
  change (skipn 0 rest) with rest.
  repeat split.
  - rewrite <- (firstn_skipn 4 rest) at 1. f_equal.
    rewrite <- (firstn_skipn 4 (skipn 4 rest)) at 1. f_equal.
    now rewrite skipn_skipn.
  - rewrite length_firstn. apply Nat.min_l. lia.
  - rewrite length_firstn, length_skipn. apply Nat.min_l. lia.
Qed.

(** A body of bytes that is decoded, when it is long enough to hold the two
    serial numbers, is the body of a reply frame for what it decodes to, the
    length byte apart. *)
Lemma unpack_message_Return_inv (message : bytes) (message_type serial_number : Z)
  (payload : bytes) :
  wf_bytes message -> (12 <= length message)%nat ->
  _unpack_message message = Return (message_type, serial_number, payload) ->
  0 <= serial_number < 2 ^ 32 /\
  exists length_byte,
    let body :=
      length_byte :: MESSAGE_RECV_SEP :: message_type
        :: le_bytes 4 serial_number ++ le_bytes 4 serial_number ++ payload in
    message = body ++ [Z.land (sum body) 0xFF].
Proof.
  intros W Hlen H.
  destruct (exists_last (l := message)) as (body & ck & ->).
  { intros ->. cbn [length] in Hlen. lia. }
  rewrite length_app in Hlen. cbn [length] in Hlen.
  destruct body as [|L [|sep [|t rest]]]; cbn [length] in Hlen; try lia.
  cbn [app] in H, W. rewrite unpack_message_body in H. cbv zeta in H.
  destruct (Z.eqb_spec ck (Z.land (L + (sep + (t + sum rest))) 0xFF)) as [Hck|];
    [|discriminate].
  destruct (Z.eqb_spec sep MESSAGE_RECV_SEP) as [Hsep|]; [|discriminate].
  cbn [negb] in H. subst ck sep.
  destruct (Z.eqb_spec (from_bytes_little (slice rest 0 4))
              (from_bytes_little (slice rest 4 8))) as [Heq|]; [|discriminate].
  cbn [negb] in H. apply Return_inj in H.
  destruct (slices_of_rest rest) as (Hrest & L0 & L1); [lia|].
  assert (Wrest : wf_bytes (slice rest 0 4 ++ slice rest 4 8 ++ slice_from rest 8)).
  { rewrite <- Hrest. unfold wf_bytes in *.
    do 3 apply Forall_inv_tail in W.
    rewrite Forall_app in W. now destruct W as [W _]. }
  unfold wf_bytes in Wrest. rewrite !Forall_app in Wrest.
  destruct Wrest as (W0 & W1 & _).
  apply from_bytes_little_inj in Heq; [|assumption|assumption|congruence].
  assert (Hs : serial_number = from_bytes_little (slice rest 0 4)) by congruence.
  assert (Hp : payload = slice_from rest 8) by congruence.
  assert (Ht : message_type = t) by congruence.
  pose proof (from_bytes_little_bound _ W0) as Hb. rewrite L0 in Hb.
  change (256 ^ Z.of_nat 4) with (2 ^ 32) in Hb.
  pose proof (le_bytes_from_bytes_little _ W0) as Hle. rewrite L0 in Hle.
  split; [now rewrite Hs|].
  exists L. cbv zeta. rewrite Hs, Hp, Ht, Hle. rewrite Heq at 2 4.
  rewrite <- Hrest. cbn [app sum]. reflexivity.
Qed.

(** X5. A body of at least 12 bytes that [_unpack_message] decodes holds
    nothing but what it decodes to: it is a length byte, the receive
    separator, the message type, the serial number twice in little endian, the
    payload and the checksum of these; and the serial number fits four
    bytes. *)
Theorem unpack_message_is_inverse_of_framing (message : bytes)
  (message_type serial_number : Z) (payload : bytes) :
  wf_bytes message -> (12 <= length message)%nat ->
  _unpack_message message = Return (message_type, serial_number, payload) ->
  0 <= serial_number < 2 ^ 32 /\
  exists length_byte,
    let body :=
      length_byte :: MESSAGE_RECV_SEP :: message_type
        :: le_bytes 4 serial_number ++ le_bytes 4 serial_number ++ payload in
    message = body ++ [Z.land (sum body) 0xFF].
Proof. apply unpack_message_Return_inv. Qed.

(** X5 on the body of a reply frame. *)
Lemma unpack_message_is_inverse_of_framing_witness :
  0 <= 123456789 < 2 ^ 32 /\
  exists length_byte,
    let body :=
      length_byte :: MESSAGE_RECV_SEP :: 0xB1
        :: le_bytes 4 123456789 ++ le_bytes 4 123456789 ++ [7; 8] in
    frame_body (reply_frame 0xB1 123456789 [7; 8]) = body ++ [Z.land (sum body) 0xFF].
Proof.
  apply (unpack_message_is_inverse_of_framing
           (frame_body (reply_frame 0xB1 123456789 [7; 8])) 0xB1 123456789 [7; 8]).
  - apply wf_bytes_check. vm_compute. reflexivity.
  - vm_compute. lia.
  - vm_compute. reflexivity.
Defined.

(** X6. [_unpack_message] never compares the length byte with anything: two
    bodies that differ in the length byte only, each with its own valid
    checksum, decode alike. *)
Theorem unpack_message_ignores_length_byte (length1 length2 separator message_type : Z)
  (rest : bytes) :
  _unpack_message
    (length1 :: separator :: message_type :: rest
       ++ [Z.land (sum (length1 :: separator :: message_type :: rest)) 0xFF]) =
  _unpack_message
    (length2 :: separator :: message_type :: rest
       ++ [Z.land (sum (length2 :: separator :: message_type :: rest)) 0xFF]).
Proof.
  rewrite !unpack_message_body. cbv zeta. cbn [sum].
  rewrite !Z.eqb_refl. reflexivity.
Qed.

(** X7. [_unpack_message] does not ask for eight bytes of serial number. With
    at most four bytes between the message type and a valid checksum, the
    second serial number reads as 0: the body is decoded, with the serial
    number 0 and an empty payload, when the little-endian value of these bytes
    is 0 (none of them, or zeros), and raises the serial number mismatch
    otherwise. *)
Theorem unpack_message_truncated_serial (length_byte message_type : Z) (rest : bytes) :
  (length rest <= 4)%nat ->
  _unpack_message
    (length_byte :: MESSAGE_RECV_SEP :: message_type :: rest
       ++ [Z.land (sum (length_byte :: MESSAGE_RECV_SEP :: message_type :: rest)) 0xFF]) =
  if from_bytes_little rest =? 0 then Return (message_type, 0, [])
  else Raise (OmnikInverterPacketInvalidError
                (SerialNumberMismatch (from_bytes_little rest) 0)).
Proof.
  intros Hlen. rewrite unpack_message_body. cbv zeta. cbn [sum].
  rewrite !Z.eqb_refl. cbn [negb].
  unfold slice, slice_from. change (skipn 0 rest) with rest.
  rewrite firstn_all2 by (cbn; lia).
  rewrite (skipn_all2 (n := 4)) by lia. rewrite (skipn_all2 (n := 8)) by lia.
  cbn [firstn from_bytes_little Nat.sub].
  destruct (Z.eqb_spec (from_bytes_little rest) 0) as [->|]; reflexivity.
Qed.

(** X7 on the body of four bytes that holds no serial number at all. *)
Lemma unpack_message_truncated_serial_witness :
  _unpack_message
    (0 :: MESSAGE_RECV_SEP :: 0xB1 :: []
       ++ [Z.land (sum (0 :: MESSAGE_RECV_SEP :: 0xB1 :: [])) 0xFF]) =
  if from_bytes_little [] =? 0 then Return (0xB1, 0, [])
  else Raise (OmnikInverterPacketInvalidError
                (SerialNumberMismatch (from_bytes_little []) 0)).
Proof.
  apply (unpack_message_truncated_serial 0 0xB1 []). cbn [length]. lia.
Defined.

(** * Further properties of the message stream decoder *)

Lemma readexactly_Raise (reader : StreamReader) (n : Z) (exn : exception) :
  readexactly reader n = Raise exn ->
  (n < 0 /\ exn = ValueError) \/
  (len (buffer reader) < n /\ exn = IncompleteReadError (buffer reader) n).
Proof.
  unfold readexactly.
  destruct (Z.ltb_spec n 0) as [Hn|Hn]; [intros E; injection E as <-; auto|].
  destruct (Z.ltb_spec (len (buffer reader)) n) as [Hl|Hl]; [|discriminate].
  intros E. injection E as <-. auto.
Qed.

Lemma readbyte_Raise (reader : StreamReader) (exn : exception) :
  readbyte reader = Raise exn ->
  buffer reader = [] /\ exn = IncompleteReadError [] 1.
Proof.
  unfold readbyte.
  destruct (readexactly reader 1) as [[data r]|e] eqn:E; cbn [bind].
  - apply readexactly_Return in E. destruct E as (_ & _ & Hl & _).
    destruct data; [discriminate Hl|discriminate].
  - intros H. injection H as <-.
    apply readexactly_Raise in E. destruct E as [[? _]|[Hl ->]]; [lia|].
    unfold len in Hl. destruct (buffer reader); [auto|cbn [length] in Hl; lia].
Qed.

(** The exceptions [_unpack_message] raises on a body of four bytes or more. *)
Lemma unpack_message_Raise (message : bytes) (exn : exception) :
  (4 <= length message)%nat ->
  _unpack_message message = Raise exn ->
  (exists calculated got,
      exn = OmnikInverterPacketInvalidError (ChecksumMismatch calculated got)) \/
  exn = OmnikInverterPacketInvalidError InvalidReceiverSeparator \/
  (exists serial0 serial1,
      exn = OmnikInverterPacketInvalidError (SerialNumberMismatch serial0 serial1)).
Proof.
  intros Hlen.
  destruct (exists_last (l := message)) as (body & ck & ->).
  { intros ->. cbn [length] in Hlen. lia. }
  rewrite length_app in Hlen. cbn [length] in Hlen.
  destruct body as [|L [|sep [|t rest]]]; cbn [length] in Hlen; try lia.
  cbn [app]. rewrite unpack_message_body. cbv zeta.
  repeat match goal with
         | |- context [if ?c then _ else _] => destruct c
         end;
    intros H; try discriminate; injection H as <-; eauto 6.
Qed.

(** What a resumption that yields has read: a start marker, a length byte [L],
    [L + 11] bytes in one request, and an end marker. *)
Lemma unpack_messages_Yield_inv (reader reader' : StreamReader)
  (item : Z * Z * bytes) :
  _unpack_messages reader = Yield item reader' ->
  exists L data,
    buffer reader = MESSAGE_START :: L :: data ++ MESSAGE_END :: buffer reader' /\
    length data = Z.to_nat (L + 11) /\ 0 <= L + 11 /\
    _unpack_message (L :: data) = Return item /\
    requests reader' = requests reader ++ [1; 1; L + 11; 1].
Proof.
  unfold _unpack_messages.
  destruct (readbyte reader) as [[b r1]|e] eqn:E1; [|discriminate].
  apply readbyte_Return in E1. destruct E1 as [B1 R1]. cbn [bind].
  destruct (b =? 0xFF); [discriminate|].
  destruct (Z.eqb_spec b MESSAGE_START) as [->|]; [|discriminate]. cbn [negb].
  destruct (readbyte r1) as [[L r2]|e] eqn:E2; [|discriminate].
  apply readbyte_Return in E2. destruct E2 as [B2 R2]. cbn [bind]. cbv zeta.
  change (L + MESSAGE_HEADER_SIZE - 1) with (L + 12 - 1).
  replace (L + 12 - 1) with (L + 11) by lia.
  destruct (readexactly r2 (L + 11)) as [[data r3]|e] eqn:E3; [|discriminate].
  apply readexactly_Return in E3. destruct E3 as (HL & B3 & Hlen & R3). cbn [bind].
  destruct (negb (len (L :: data) =? _)); [discriminate|].
  destruct (readbyte r3) as [[x r4]|e] eqn:E4; [|discriminate].
  apply readbyte_Return in E4. destruct E4 as [B4 R4]. cbn [bind].
  destruct (Z.eqb_spec x MESSAGE_END) as [->|]; [|discriminate]. cbn [negb].
  destruct (_unpack_message (L :: data)) as [item'|] eqn:E5; [|discriminate].
  cbn [bind]. intros H.
  assert (item' = item /\ r4 = reader') as [-> ->] by (split; congruence).
  exists L, data. repeat split; try assumption.
  - now rewrite B1, B2, B3, B4.
  - rewrite R4, R3, R2, R1, <- !app_assoc. reflexivity.
Qed.

(** X8. On a source of bytes, a resumption of [_unpack_messages] raises
    nothing but [IncompleteReadError], when the source ends, and five packet
    errors: invalid start byte, invalid end byte, checksum mismatch, invalid
    receiver separator and serial number mismatch. In particular it never
    raises the packet error "Could only read ... expected bytes", and never
    [IndexError]. *)
Theorem unpack_messages_raises_only (reader : StreamReader) (exn : exception) :
  wf_bytes (buffer reader) ->
  _unpack_messages reader = Throw exn ->
  (exists partial expected, exn = IncompleteReadError partial expected) \/
  exn = OmnikInverterPacketInvalidError InvalidStartByte \/
  exn = OmnikInverterPacketInvalidError InvalidEndByte \/
  (exists calculated got,
      exn = OmnikInverterPacketInvalidError (ChecksumMismatch calculated got)) \/
  exn = OmnikInverterPacketInvalidError InvalidReceiverSeparator \/
  (exists serial0 serial1,
      exn = OmnikInverterPacketInvalidError (SerialNumberMismatch serial0 serial1)).
Proof.
  intros W. unfold _unpack_messages.
  destruct (readbyte reader) as [[b r1]|e] eqn:E1; cbn [bind].
  2:{ apply readbyte_Raise in E1. destruct E1 as [_ ->].
      intros H. injection H as <-. eauto. }
  apply readbyte_Return in E1. destruct E1 as [B1 _].
  destruct (b =? 0xFF); [discriminate|].
  destruct (negb (b =? MESSAGE_START)); [intros H; injection H as <-; auto|].
  destruct (readbyte r1) as [[L r2]|e] eqn:E2; cbn [bind].
  2:{ apply readbyte_Raise in E2. destruct E2 as [_ ->].
      intros H. injection H as <-. eauto. }
  apply readbyte_Return in E2. destruct E2 as [B2 _]. cbv zeta.
  assert (HL : 0 <= L).
  { rewrite B1, B2 in W. apply Forall_inv_tail, Forall_inv in W. apply W. }
  change (L + MESSAGE_HEADER_SIZE - 1) with (L + 12 - 1).
  replace (L + 12 - 1) with (L + 11) by lia.
  destruct (readexactly r2 (L + 11)) as [[data r3]|e] eqn:E3; cbn [bind].
  2:{ apply readexactly_Raise in E3. destruct E3 as [[? _]|[_ ->]]; [lia|].
      intros H. injection H as <-. eauto. }
  apply readexactly_Return in E3. destruct E3 as (_ & _ & Hlen & _).
  replace (len (L :: data) =? L + MESSAGE_HEADER_SIZE) with true.
  2:{ symmetry. apply Z.eqb_eq. unfold len, MESSAGE_HEADER_SIZE.
      cbn [length]. lia. }
  cbn [negb].
  destruct (readbyte r3) as [[x r4]|e] eqn:E4; cbn [bind].
  2:{ apply readbyte_Raise in E4. destruct E4 as [_ ->].
      intros H. injection H as <-. eauto. }
  destruct (negb (x =? MESSAGE_END)); [intros H; injection H as <-; auto|].
  destruct (_unpack_message (L :: data)) as [item|e] eqn:E5; cbn [bind];
    [discriminate|].
  intros H. injection H as <-.
  apply unpack_message_Raise in E5; [|cbn [length]; lia].
  destruct E5 as [E5|[E5|E5]]; auto 10.
Qed.

(** X8 on a source that ends inside a frame. *)
Lemma unpack_messages_raises_only_witness :
  exists exn,
    _unpack_messages (mkReader [0x68; 2; 0x41; 0xB1] []) = Throw exn /\
    ((exists partial expected, exn = IncompleteReadError partial expected) \/
     exn = OmnikInverterPacketInvalidError InvalidStartByte \/
     exn = OmnikInverterPacketInvalidError InvalidEndByte \/
     (exists calculated got,
         exn = OmnikInverterPacketInvalidError (ChecksumMismatch calculated got)) \/
     exn = OmnikInverterPacketInvalidError InvalidReceiverSeparator \/
     (exists serial0 serial1,
         exn = OmnikInverterPacketInvalidError (SerialNumberMismatch serial0 serial1))).
Proof.
  exists (IncompleteReadError [0x41; 0xB1] 13).
  split; [vm_compute; reflexivity|].
  apply (unpack_messages_raises_only (mkReader [0x68; 2; 0x41; 0xB1] [])).
  - apply wf_bytes_check. reflexivity.
  - vm_compute. reflexivity.
Defined.

(** X9. When the source ends inside a frame, after the start marker and a
    length byte [L] and before [L + 11] more bytes, the resumption raises
    [IncompleteReadError] with the bytes that were left and the count
    [L + 11] that was asked for. *)
Theorem unpack_messages_truncated_frame (L : Z) (rest : bytes) (log : list Z) :
  0 <= L -> len rest < L + 11 ->
  _unpack_messages (mkReader (MESSAGE_START :: L :: rest) log) =
  Throw (IncompleteReadError rest (L + 11)).
Proof.
  intros HL Hlen. unfold _unpack_messages.
  rewrite readbyte_cons. cbn [bind Z.eqb MESSAGE_START Pos.eqb negb].
  rewrite readbyte_cons. cbn [bind]. cbv zeta.
  change (L + MESSAGE_HEADER_SIZE - 1) with (L + 12 - 1).
  replace (L + 12 - 1) with (L + 11) by lia.
  unfold readexactly. cbn [buffer].
  destruct (Z.ltb_spec (L + 11) 0); [lia|].
  destruct (Z.ltb_spec (len rest) (L + 11)); [reflexivity|lia].
Qed.

(** X9 on a frame that announces two bytes of payload and ends after its
    message type. *)
Lemma unpack_messages_truncated_frame_witness :
  _unpack_messages (mkReader (MESSAGE_START :: 2 :: [0x41; 0xB1]) []) =
  Throw (IncompleteReadError [0x41; 0xB1] (2 + 11)).
Proof.
  apply (unpack_messages_truncated_frame 2 [0x41; 0xB1] []).
  - lia.
  - vm_compute. reflexivity.
Defined.

(** X10. The end marker is checked before the frame body is decoded: when the
    byte after the [L + 11] bytes of the body is not 0x16, the resumption
    raises "Invalid end byte", whatever the body holds, a wrong checksum
    included. *)
Theorem unpack_messages_wrong_end_marker (L x : Z) (body rest : bytes)
  (log : list Z) :
  0 <= L -> length body = Z.to_nat (L + 11) -> x <> MESSAGE_END ->
  _unpack_messages (mkReader (MESSAGE_START :: L :: body ++ x :: rest) log) =
  Throw (OmnikInverterPacketInvalidError InvalidEndByte).
Proof.
  intros HL Hlen Hx. unfold _unpack_messages.
  rewrite readbyte_cons. cbn [bind Z.eqb MESSAGE_START Pos.eqb negb].
  rewrite readbyte_cons. cbn [bind]. cbv zeta.
  change (L + MESSAGE_HEADER_SIZE - 1) with (L + 12 - 1).
  replace (L + 12 - 1) with (L + 11) by lia.
  rewrite readexactly_enough
    by (unfold len; cbn [buffer]; rewrite length_app; cbn [length]; lia).
  cbn [bind buffer requests].
  rewrite (firstn_app_exact _ _ _ Hlen), (skipn_app_exact _ _ _ Hlen).
  replace (len (L :: body) =? L + MESSAGE_HEADER_SIZE) with true.
  2:{ symmetry. apply Z.eqb_eq. unfold len, MESSAGE_HEADER_SIZE. cbn [length]. lia. }
  cbn [negb]. rewrite readbyte_cons. cbn [bind].
  destruct (Z.eqb_spec x MESSAGE_END); [contradiction|reflexivity].
Qed.

(** X10 on a frame whose checksum is wrong as well. *)
Lemma unpack_messages_wrong_end_marker_witness :
  _unpack_messages
    (mkReader
       (MESSAGE_START :: 0 :: [0x41; 0xB1; 1; 0; 0; 0; 1; 0; 0; 0; 0x99]
          ++ 0x17 :: [0xFF]) []) =
  Throw (OmnikInverterPacketInvalidError InvalidEndByte).
Proof.
  apply (unpack_messages_wrong_end_marker 0 0x17
           [0x41; 0xB1; 1; 0; 0; 0; 1; 0; 0; 0; 0x99] [0xFF] []).
  - lia.
  - reflexivity.
  - discriminate.
Defined.

(** X11. What the generator yields is what the source holds: on a source of
    bytes, a resumption yields the message type, serial number and payload only
    of a reply frame that stands at the head of the source, with a length byte
    equal to the length of the payload, a serial number that fits four bytes
    and a payload of at most 255 bytes; it leaves the source at the byte after
    the end marker of this frame, after four requests of 1, 1, the payload
    length plus 11, and 1 bytes. *)
Theorem yielded_item_is_the_frame_read (reader reader' : StreamReader)
  (message_type serial_number : Z) (message : bytes) :
  wf_bytes (buffer reader) ->
  _unpack_messages reader = Yield (message_type, serial_number, message) reader' ->
  buffer reader = reply_frame message_type serial_number message ++ buffer reader' /\
  requests reader' = requests reader ++ [1; 1; len message + 11; 1] /\
  0 <= serial_number < 2 ^ 32 /\ len message <= 255.
Proof.
  intros W Hy.
  destruct (unpack_messages_Yield_inv _ _ _ Hy) as (L & data & HB & Hlen & HL & Hu & HR).
  rewrite HB in W.
  assert (WL : is_byte L) by (apply Forall_inv_tail, Forall_inv in W; exact W).
  assert (Wbody : wf_bytes (L :: data)).
  { apply Forall_inv_tail in W. apply Forall_cons; [exact WL|].
    apply Forall_inv_tail in W. unfold wf_bytes in *.
    rewrite Forall_app in W. apply W. }
  assert (H12 : (12 <= length (L :: data))%nat)
    by (unfold is_byte in WL; cbn [length]; lia).
  destruct (unpack_message_Return_inv _ _ _ _ Wbody H12 Hu) as (Hs & L' & Heq).
  cbv zeta in Heq. cbn [app] in Heq.
  assert (L' = L) by congruence. subst L'.
  assert (Hdata : data = MESSAGE_RECV_SEP :: message_type
                           :: (le_bytes 4 serial_number ++ le_bytes 4 serial_number
                               ++ message)
                           ++ [Z.land (sum (L :: MESSAGE_RECV_SEP :: message_type
                                              :: le_bytes 4 serial_number
                                              ++ le_bytes 4 serial_number ++ message))
                                 0xFF])
    by congruence.
  assert (HLm : L = len message).
  { rewrite Hdata in Hlen. cbn [length] in Hlen.
    rewrite !length_app, !le_bytes_length in Hlen. cbn [length] in Hlen.
    unfold is_byte in WL. unfold len. lia. }
  unfold is_byte in WL. repeat split; try lia.
  - rewrite HB, Hdata, HLm. unfold reply_frame. cbv zeta. cbn [app].
    rewrite <- !app_assoc. reflexivity.
  - rewrite HR, HLm. reflexivity.
Qed.

(** X11 on a source that holds an error string and the end of the messages. *)
Lemma yielded_item_is_the_frame_read_witness :
  let reader := mkReader (reply_frame 0xB1 123456789 [7; 8] ++ [0xFF]) [] in
  buffer reader = reply_frame 0xB1 123456789 [7; 8] ++ [0xFF] /\
  requests (mkReader [0xFF] [1; 1; 13; 1]) =
  requests reader ++ [1; 1; len [7; 8] + 11; 1] /\
  0 <= 123456789 < 2 ^ 32 /\ len [7; 8] <= 255.
Proof.
  apply (yielded_item_is_the_frame_read
           (mkReader (reply_frame 0xB1 123456789 [7; 8] ++ [0xFF]) [])
           (mkReader [0xFF] [1; 1; 13; 1]) 0xB1 123456789 [7; 8]).
  - apply wf_bytes_check. vm_compute. reflexivity.
  - vm_compute. reflexivity.
Defined.

(** X12. Round trip on the stream: a reply frame for a serial number that fits
    four bytes, at the head of the source, is yielded as its message type,
    serial number and payload, and the source is left at the byte after its
    end marker. *)
Theorem reply_frame_is_yielded (message_type serial_number : Z)
  (message rest : bytes) (log : list Z) :
  0 <= serial_number < 2 ^ 32 ->
  _unpack_messages
    (mkReader (reply_frame message_type serial_number message ++ rest) log) =
  Yield (message_type, serial_number, message)
    (mkReader rest (log ++ [1; 1; len message + 11; 1])).
Proof. apply unpack_messages_reply_frame. Qed.

(** X12 on an information reply that carries [sample_payload]. *)
Lemma reply_frame_is_yielded_witness :
  _unpack_messages
    (mkReader (reply_frame 0xB0 123456789 sample_payload ++ [0xFF]) []) =
  Yield (0xB0, 123456789, sample_payload)
    (mkReader [0xFF] ([] ++ [1; 1; len sample_payload + 11; 1])).
Proof.
  apply (reply_frame_is_yielded 0xB0 123456789 sample_payload [0xFF] []). lia.
Defined.

(** The stream of a sequence of reply frames followed by 0xFF. *)
Lemma stream_yields_reply_frames (items : list (Z * Z * bytes))
  (rest : bytes) (log : list Z) :
  Forall (fun item => 0 <= snd (fst item) < 2 ^ 32) items ->
  stream_yields (mkReader (reply_frames items ++ 0xFF :: rest) log) items EndOfMessages.
Proof.
  intros H. revert log.
  induction H as [|[[t s] m] items Hs _ IH]; intros log.
  - cbn [reply_frames flat_map app]. apply yields_stop.
    unfold _unpack_messages. rewrite readbyte_cons. reflexivity.
  - cbn [reply_frames flat_map]. fold (reply_frames items).
    rewrite <- app_assoc.
    eapply yields_item; [apply unpack_messages_reply_frame; exact Hs|apply IH].
Qed.

(** Closes the side condition of [stream_yields_reply_frames] for serial
    numbers that are numerals. *)
Ltac solve_serials :=
  repeat (apply Forall_cons; [cbn [fst snd]; lia|]); apply Forall_nil.

(** X13. Frames are yielded in the order of the source: the bytes of any
    sequence of reply frames, with serial numbers that fit four bytes, followed
    by 0xFF, make the generator yield the message type, serial number and
    payload of each frame, in this order, and then end without an exception,
    whatever follows the 0xFF. *)
Theorem reply_frames_are_yielded_in_order (items : list (Z * Z * bytes))
  (rest : bytes) (log : list Z) :
  Forall (fun item => 0 <= snd (fst item) < 2 ^ 32) items ->
  stream_yields (mkReader (reply_frames items ++ 0xFF :: rest) log) items EndOfMessages.
Proof. apply stream_yields_reply_frames. Qed.

(** X13 on a text message followed by an error string. *)
Lemma reply_frames_are_yielded_in_order_witness :
  stream_yields
    (mkReader
       (reply_frames [(0xF0, 1, [111; 107]); (0xB1, 2, [7; 8])] ++ 0xFF :: [0xFF]) [])
    [(0xF0, 1, [111; 107]); (0xB1, 2, [7; 8])] EndOfMessages.
Proof.
  apply (reply_frames_are_yielded_in_order
           [(0xF0, 1, [111; 107]); (0xB1, 2, [7; 8])] [0xFF] []).
  solve_serials.
Defined.

(** * Further properties of the session loop *)

(** Two runs of the loop that both end, end alike. *)
Lemma parse_loop_agree (fuel1 fuel2 : nat) (serial_number : Z)
  (info : option information_reply) (log : list log_record) (reader : StreamReader)
  (out1 out2 : list log_record * result information_reply) :
  parse_loop fuel1 serial_number info log reader = Some out1 ->
  parse_loop fuel2 serial_number info log reader = Some out2 ->
  out1 = out2.
Proof.
  intros H1 H2.
  apply parse_loop_more_fuel with (k := fuel2) in H1.
  apply parse_loop_more_fuel with (k := fuel1) in H2.
  rewrite Nat.add_comm in H2. congruence.
Qed.

(** What the loop gives with any fuel is what [parse_messages] gives. *)
Lemma parse_messages_by_fuel (fuel : nat) (serial_number : Z) (reader : StreamReader)
  (out : list log_record * result information_reply) :
  parse_loop fuel serial_number None [] reader = Some out ->
  parse_messages serial_number reader = Some out.
Proof.
  intros H. destruct (parse_messages_total serial_number reader) as (log & r & Hp).
  rewrite Hp. f_equal. unfold parse_messages in Hp.
  exact (parse_loop_agree _ _ _ _ _ _ _ _ Hp H).
Qed.

Lemma only_logged_not_reply (item : Z * Z * bytes) :
  only_logged item ->
  (message_type_of item =? MESSAGE_TYPE_INFORMATION_REPLY) = false.
Proof.
  destruct item as [[t s] m]. unfold message_type_of. cbn [fst].
  intros [[-> _]| ->]; reflexivity.
Qed.

(** The loop goes through the messages it accepts: [info] becomes the record
    of the last information reply among them, and the log grows. *)
Lemma parse_loop_accepted (before : list (Z * Z * bytes)) :
  forall reader items e,
    stream_yields reader (before ++ items) e ->
    Forall accepted before ->
    exists reader',
      stream_yields reader' items e /\
      forall serial_number info log,
      exists log',
      forall fuel,
        parse_loop (length before + fuel) serial_number info log reader =
        parse_loop fuel serial_number (info_after info before) (log ++ log') reader'.
Proof.
  induction before as [|item before IH]; intros reader items e Hy Hall.
  - exists reader. split; [exact Hy|].
    intros serial_number info log. exists []. intros fuel. now rewrite app_nil_r.
  - cbn [app] in Hy. inversion Hy as [| |r item' r1 items' e' Hstep Hy1]; subst.
    apply Forall_cons_iff in Hall. destruct Hall as [Hitem Hall].
    destruct (IH r1 items e Hy1 Hall) as (reader' & Hy' & Hloop).
    exists reader'. split; [exact Hy'|].
    intros serial_number info log.
    unfold info_after. cbn [fold_left]. fold (info_after).
    destruct item as [[message_type reply] message].
    set (debug := if negb (reply =? serial_number)
                  then [DebugSerialNotEqual reply serial_number] else []).
    assert (Hdebug : (if negb (reply =? serial_number)
                      then log ++ [DebugSerialNotEqual reply serial_number] else log)
                     = log ++ debug)
      by (subst debug; destruct (negb (reply =? serial_number));
          [reflexivity|symmetry; apply app_nil_r]).
    destruct Hitem as [Hitem|[Hreply [i Hi]]].
    + rewrite (only_logged_not_reply _ Hitem).
      unfold message_type_of in *. cbn [fst] in *.
      destruct Hitem as [[-> [text Htext]]| ->].
      * destruct (Hloop serial_number info
                    ((log ++ debug) ++ [WarningTextMessage (strip text)])) as [log' Hl].
        exists (debug ++ WarningTextMessage (strip text) :: log'). intros fuel.
        cbn [length Nat.add parse_loop]. rewrite Hstep, Hdebug.
        cbn [Z.eqb MESSAGE_TYPE_STRING MESSAGE_TYPE_INFORMATION_REPLY Pos.eqb].
        rewrite Htext, Hl. f_equal. rewrite <- !app_assoc. reflexivity.
      * destruct (Hloop serial_number info
                    ((log ++ debug) ++ [WarningErrorMessage message])) as [log' Hl].
        exists (debug ++ WarningErrorMessage message :: log'). intros fuel.
        cbn [length Nat.add parse_loop]. rewrite Hstep, Hdebug.
        cbn [Z.eqb MESSAGE_TYPE_STRING MESSAGE_TYPE_INFORMATION_REPLY
               MESSAGE_TYPE_ERROR_STRING Pos.eqb].
        rewrite Hl. f_equal. rewrite <- !app_assoc. reflexivity.
    + unfold is_information_reply, message_type_of in *. cbn [fst snd] in *.
      subst message_type. rewrite Z.eqb_refl, Hi.
      set (warning := match info with
                      | Some _ => [WarningMultipleReplies]
                      | None => []
                      end).
      destruct (Hloop serial_number (Some i) ((log ++ debug) ++ warning)) as [log' Hl].
      exists (debug ++ warning ++ log'). intros fuel.
      cbn [length Nat.add parse_loop]. rewrite Hstep, Hdebug, Z.eqb_refl, Hi.
      replace (match info with
               | Some _ => (log ++ debug) ++ [WarningMultipleReplies]
               | None => log ++ debug
               end) with ((log ++ debug) ++ warning)
        by (subst warning; destruct info; [reflexivity|apply app_nil_r]).
      rewrite Hl. f_equal. rewrite <- !app_assoc. reflexivity.
Qed.

(** [parse_messages] after the messages it accepts. *)
Lemma parse_messages_after (serial_number : Z) (reader : StreamReader)
  (before items : list (Z * Z * bytes)) (e : stream_end) :
  stream_yields reader (before ++ items) e ->
  Forall accepted before ->
  exists reader' log',
    stream_yields reader' items e /\
    forall fuel out,
      parse_loop fuel serial_number (info_after None before) log' reader' = Some out ->
      parse_messages serial_number reader = Some out.
Proof.
  intros Hy Hall.
  destruct (parse_loop_accepted before _ _ _ Hy Hall) as (reader' & Hy' & Hloop).
  destruct (Hloop serial_number None []) as [log' Hl].
  exists reader', log'. split; [exact Hy'|].
  intros fuel out H. apply (parse_messages_by_fuel (length before + fuel)).
  rewrite Hl. exact H.
Qed.

Lemma info_after_Some (items : list (Z * Z * bytes)) :
  forall info, info <> None -> info_after info items <> None.
Proof.
  induction items as [|item items IH]; intros info Hinfo; [exact Hinfo|].
  unfold info_after. cbn [fold_left]. fold info_after. apply IH.
  destruct (message_type_of item =? MESSAGE_TYPE_INFORMATION_REPLY); [|exact Hinfo].
  destruct (_parse_information_reply (snd item)); [discriminate|exact Hinfo].
Qed.

Lemma info_after_reply (items : list (Z * Z * bytes)) :
  Forall accepted items -> Exists is_information_reply items ->
  forall info, info_after info items <> None.
Proof.
  intros Hall Hex. induction Hex as [item items Hitem|item items _ IH]; intros info;
    apply Forall_cons_iff in Hall; destruct Hall as [Hacc Hall];
    unfold info_after; cbn [fold_left]; fold info_after.
  - apply info_after_Some.
    destruct Hacc as [Hl|[_ [i Hi]]].
    + apply only_logged_not_reply in Hl. unfold is_information_reply in Hitem.
      rewrite Hitem, Z.eqb_refl in Hl. discriminate.
    + unfold is_information_reply in Hitem. rewrite Hitem, Z.eqb_refl, Hi.
      discriminate.
  - now apply IH.
Qed.

(** X14. The last information reply wins. On a stream that ends, without an
    exception, after an information reply that decodes, with before it any
    messages the loop accepts (other information replies that decode
    included) and after it only messages that are logged, [parse_messages]
    returns the record of this last reply, for any serial number asked for;
    when an information reply came before, the warning about multiple replies
    is in the log. *)
Theorem last_information_reply_wins (serial_number reply_serial_number : Z)
  (reader : StreamReader) (before after : list (Z * Z * bytes))
  (message : bytes) (info : information_reply) :
  stream_yields reader
    (before ++ (MESSAGE_TYPE_INFORMATION_REPLY, reply_serial_number, message) :: after)
    EndOfMessages ->
  Forall accepted before -> Forall only_logged after ->
  _parse_information_reply message = Return info ->
  exists log,
    parse_messages serial_number reader = Some (log, Return info) /\
    (Exists is_information_reply before -> In WarningMultipleReplies log).
Proof.
  intros Hy Hbefore Hafter Hinfo.
  destruct (parse_messages_after serial_number _ _ _ _ Hy Hbefore)
    as (r1 & log1 & Hy1 & Hrun).
  inversion Hy1 as [| |r item r2 items e Hstep Hy2]; subst.
  rewrite <- (app_nil_r after) in Hy2.
  destruct (parse_loop_only_logged after _ _ _ Hy2 Hafter) as (r3 & Hy3 & Hloop3).
  inversion Hy3 as [r Hstop| |]; subst.
  set (l1 := if negb (reply_serial_number =? serial_number)
             then log1 ++ [DebugSerialNotEqual reply_serial_number serial_number]
             else log1).
  set (l2 := match info_after None before with
             | Some _ => l1 ++ [WarningMultipleReplies]
             | None => l1
             end).
  destruct (Hloop3 1%nat serial_number (Some info) l2) as [log2 H3].
  exists (l2 ++ log2). split.
  - apply (Hrun (S (length after + 1))).
    cbn [parse_loop]. rewrite Hstep, Z.eqb_refl, Hinfo. fold l1. fold l2.
    rewrite H3. cbn [parse_loop]. rewrite Hstop. reflexivity.
  - intros Hex. apply in_or_app. left. subst l2.
    destruct (info_after None before) eqn:E.
    + apply in_or_app. right. now left.
    + exfalso. exact (info_after_reply before Hbefore Hex None E).
Qed.

(** X14 on two information replies and an error string. *)
Lemma last_information_reply_wins_witness :
  exists log,
    parse_messages 123456789
      (mkReader
         (reply_frames [(0xB0, 1, sample_payload); (0xB0, 2, sample_payload);
                        (0xB1, 2, [7; 8])] ++ 0xFF :: []) []) =
    Some (log, Return sample_information_reply) /\
    (Exists is_information_reply [(0xB0, 1, sample_payload)] ->
     In WarningMultipleReplies log).
Proof.
  apply (last_information_reply_wins 123456789 2 _
           [(0xB0, 1, sample_payload)] [(0xB1, 2, [7; 8])]
           sample_payload sample_information_reply).
  - apply (stream_yields_reply_frames
             [(0xB0, 1, sample_payload); (0xB0, 2, sample_payload); (0xB1, 2, [7; 8])]).
    solve_serials.
  - apply Forall_cons; [|apply Forall_nil]. right. split; [reflexivity|].
    exists sample_information_reply. vm_compute. reflexivity.
  - apply Forall_cons; [|apply Forall_nil]. right. reflexivity.
  - vm_compute. reflexivity.
Defined.

(** X15. A message of a type other than 0xB0, 0xF0 and 0xB1 makes
    [parse_messages] raise the packet error "Unknown Omnik message type" with
    this type and the payload, when the messages before it are accepted: an
    information reply decoded before is given up, and nothing of what follows
    the message in the source matters. *)
Theorem unknown_message_type_raises (serial_number reply_serial_number : Z)
  (reader : StreamReader) (before rest : list (Z * Z * bytes)) (e : stream_end)
  (message_type : Z) (message : bytes) :
  stream_yields reader
    (before ++ (message_type, reply_serial_number, message) :: rest) e ->
  Forall accepted before ->
  message_type <> MESSAGE_TYPE_INFORMATION_REPLY ->
  message_type <> MESSAGE_TYPE_STRING ->
  message_type <> MESSAGE_TYPE_ERROR_STRING ->
  exists log,
    parse_messages serial_number reader =
    Some (log, Raise (OmnikInverterPacketInvalidError
                        (UnknownMessageType message_type message))).
Proof.
  intros Hy Hbefore H1 H2 H3.
  destruct (parse_messages_after serial_number _ _ _ _ Hy Hbefore)
    as (r1 & log1 & Hy1 & Hrun).
  inversion Hy1 as [| |r item r2 items e' Hstep Hy2]; subst.
  eexists. apply (Hrun 1%nat). cbn [parse_loop]. rewrite Hstep.
  destruct (Z.eqb_spec message_type MESSAGE_TYPE_INFORMATION_REPLY); [contradiction|].
  destruct (Z.eqb_spec message_type MESSAGE_TYPE_STRING); [contradiction|].
  destruct (Z.eqb_spec message_type MESSAGE_TYPE_ERROR_STRING); [contradiction|].
  reflexivity.
Qed.

(** X15 on an information reply followed by a message of type 0x55. *)
Lemma unknown_message_type_raises_witness :
  exists log,
    parse_messages 123456789
      (mkReader
         (reply_frames [(0xB0, 1, sample_payload); (0x55, 1, [9])] ++ 0xFF :: []) []) =
    Some (log, Raise (OmnikInverterPacketInvalidError (UnknownMessageType 0x55 [9]))).
Proof.
  apply (unknown_message_type_raises 123456789 1 _
           [(0xB0, 1, sample_payload)] [] EndOfMessages 0x55 [9]).
  - apply (stream_yields_reply_frames [(0xB0, 1, sample_payload); (0x55, 1, [9])]).
    solve_serials.
  - apply Forall_cons; [|apply Forall_nil]. right. split; [reflexivity|].
    exists sample_information_reply. vm_compute. reflexivity.
  - discriminate.
  - discriminate.
  - discriminate.
Defined.

(** X16. An information reply that does not decode makes [parse_messages]
    raise the exception of the decoder, when the messages before it are
    accepted: a record decoded from an earlier reply is not returned in its
    place. *)
Theorem undecodable_reply_raises (serial_number reply_serial_number : Z)
  (reader : StreamReader) (before rest : list (Z * Z * bytes)) (e : stream_end)
  (message : bytes) (exn : exception) :
  stream_yields reader
    (before ++ (MESSAGE_TYPE_INFORMATION_REPLY, reply_serial_number, message) :: rest)
    e ->
  Forall accepted before ->
  _parse_information_reply message = Raise exn ->
  exists log, parse_messages serial_number reader = Some (log, Raise exn).
Proof.
  intros Hy Hbefore Hexn.
  destruct (parse_messages_after serial_number _ _ _ _ Hy Hbefore)
    as (r1 & log1 & Hy1 & Hrun).
  inversion Hy1 as [| |r item r2 items e' Hstep Hy2]; subst.
  eexists. apply (Hrun 1%nat). cbn [parse_loop].
  rewrite Hstep, Z.eqb_refl, Hexn. reflexivity.
Qed.

(** X16 on an information reply of three bytes after one that decodes. *)
Lemma undecodable_reply_raises_witness :
  exists log,
    parse_messages 123456789
      (mkReader
         (reply_frames [(0xB0, 1, sample_payload); (0xB0, 1, [1; 2; 3])]
            ++ 0xFF :: []) []) =
    Some (log, Raise ValueError).
Proof.
  apply (undecodable_reply_raises 123456789 1 _
           [(0xB0, 1, sample_payload)] [] EndOfMessages [1; 2; 3] ValueError).
  - apply (stream_yields_reply_frames [(0xB0, 1, sample_payload); (0xB0, 1, [1; 2; 3])]).
    solve_serials.
  - apply Forall_cons; [|apply Forall_nil]. right. split; [reflexivity|].
    exists sample_information_reply. vm_compute. reflexivity.
  - reflexivity.
Defined.

(** X17. A text message whose bytes are not UTF-8 makes [parse_messages] raise
    [UnicodeDecodeError], when the messages before it are accepted: the text
    is decoded for the log before anything else is read. *)
Theorem undecodable_text_raises (serial_number reply_serial_number : Z)
  (reader : StreamReader) (before rest : list (Z * Z * bytes)) (e : stream_end)
  (message : bytes) (exn : exception) :
  stream_yields reader
    (before ++ (MESSAGE_TYPE_STRING, reply_serial_number, message) :: rest) e ->
  Forall accepted before ->
  decode_utf8 message = Raise exn ->
  exists log, parse_messages serial_number reader = Some (log, Raise UnicodeDecodeError).
Proof.
  intros Hy Hbefore Hexn.
  destruct (parse_messages_after serial_number _ _ _ _ Hy Hbefore)
    as (r1 & log1 & Hy1 & Hrun).
  inversion Hy1 as [| |r item r2 items e' Hstep Hy2]; subst.
  eexists. apply (Hrun 1%nat). cbn [parse_loop]. rewrite Hstep.
  cbn [Z.eqb MESSAGE_TYPE_STRING MESSAGE_TYPE_INFORMATION_REPLY Pos.eqb].
  rewrite Hexn. apply decode_utf8_Raise in Hexn. subst exn. reflexivity.
Qed.

(** X17 on a text message that holds the byte FF. *)
Lemma undecodable_text_raises_witness :
  exists log,
    parse_messages 123456789
      (mkReader (reply_frames [(0xF0, 1, [0xFF])] ++ 0xFF :: []) []) =
    Some (log, Raise UnicodeDecodeError).
Proof.
  apply (undecodable_text_raises 123456789 1 _ [] [] EndOfMessages [0xFF]
           UnicodeDecodeError).
  - apply (stream_yields_reply_frames [(0xF0, 1, [0xFF])]). solve_serials.
  - apply Forall_nil.
  - reflexivity.
Defined.

(** X18. No partial result: when the stream ends by an exception of the
    generator (the source ends too early, a marker, checksum, separator or
    serial number is wrong) after messages the loop accepts, [parse_messages]
    raises this exception, also when an information reply was decoded
    before. *)
Theorem stream_exception_raises (serial_number : Z) (reader : StreamReader)
  (items : list (Z * Z * bytes)) (exn : exception) :
  stream_yields reader items (EndByException exn) ->
  Forall accepted items ->
  exists log, parse_messages serial_number reader = Some (log, Raise exn).
Proof.
  intros Hy Hall. rewrite <- (app_nil_r items) in Hy.
  destruct (parse_messages_after serial_number _ _ _ _ Hy Hall)
    as (r1 & log1 & Hy1 & Hrun).
  inversion Hy1 as [|r e Hthrow|]; subst.
  eexists. apply (Hrun 1%nat). cbn [parse_loop]. rewrite Hthrow. reflexivity.
Qed.

(** X18 on a source that ends after an information reply, without the 0xFF. *)
Lemma stream_exception_raises_witness :
  exists log,
    parse_messages 123456789
      (mkReader (reply_frame 0xB0 123456789 sample_payload) []) =
    Some (log, Raise (IncompleteReadError [] 1)).
Proof.
  apply (stream_exception_raises 123456789 _ [(0xB0, 123456789, sample_payload)]).
  - eapply yields_item; [vm_compute; reflexivity|].
    apply yields_throw. vm_compute. reflexivity.
  - apply Forall_cons; [|apply Forall_nil]. right. split; [reflexivity|].
    exists sample_information_reply. vm_compute. reflexivity.
Defined.

(** The loop sees the source only through what the generator makes of it. *)
Lemma parse_loop_stream (reader1 : StreamReader) (items : list (Z * Z * bytes))
  (e : stream_end) :
  stream_yields reader1 items e ->
  forall reader2,
    stream_yields reader2 items e ->
    forall fuel serial_number info log,
      parse_loop fuel serial_number info log reader1 =
      parse_loop fuel serial_number info log reader2.
Proof.
  induction 1 as [r1 H1|r1 e H1|r1 item r1' items e H1 _ IH];
    intros reader2 H2 fuel serial_number info log;
    (destruct fuel as [|fuel]; [reflexivity|]);
    inversion H2 as [r2 E2|r2 e2 E2|r2 item2 r2' items2 e2 E2 H2']; subst;
    cbn [parse_loop]; rewrite H1, E2; try reflexivity.
  destruct item as [[message_type reply] message].
  destruct (message_type =? MESSAGE_TYPE_INFORMATION_REPLY).
  { destruct (_parse_information_reply message); [now apply IH|reflexivity]. }
  destruct (message_type =? MESSAGE_TYPE_STRING).
  { destruct (decode_utf8 message); [now apply IH|reflexivity]. }
  destruct (message_type =? MESSAGE_TYPE_ERROR_STRING); [now apply IH|reflexivity].
Qed.

(** X24. [parse_messages] depends on the source only through the messages the
    generator yields and the way the stream ends: two sources that yield the
    same messages and end alike give the same log and the same result. So the
    bytes that follow the 0xFF that ends the messages are never read. *)
Theorem parse_messages_depends_on_messages_only (serial_number : Z)
  (reader1 reader2 : StreamReader) (items : list (Z * Z * bytes)) (e : stream_end) :
  stream_yields reader1 items e ->
  stream_yields reader2 items e ->
  parse_messages serial_number reader1 = parse_messages serial_number reader2.
Proof.
  intros H1 H2.
  destruct (parse_messages_total serial_number reader1) as (log1 & res1 & P1).
  rewrite P1. symmetry. apply (parse_messages_by_fuel (S (length (buffer reader1)))).
  rewrite <- (parse_loop_stream _ _ _ H1 _ H2). exact P1.
Qed.

(** X24 on an information reply followed by 0xFF, and by 0xFF and more. *)
Lemma parse_messages_depends_on_messages_only_witness :
  parse_messages 123456789
    (mkReader (reply_frames [(0xB0, 123456789, sample_payload)] ++ 0xFF :: []) []) =
  parse_messages 123456789
    (mkReader (reply_frames [(0xB0, 123456789, sample_payload)]
                 ++ 0xFF :: [0xFF; 0x68; 1; 2; 3]) []).
Proof.
  apply (parse_messages_depends_on_messages_only 123456789 _ _
           [(0xB0, 123456789, sample_payload)] EndOfMessages).
  - apply (stream_yields_reply_frames [(0xB0, 123456789, sample_payload)]).
    solve_serials.
  - apply (stream_yields_reply_frames [(0xB0, 123456789, sample_payload)]).
    solve_serials.
Defined.

(** * Further properties of the information reply decoder *)

Lemma slice_app_l (l extra : bytes) (i j : nat) :
  (i <= j)%nat -> (j <= length l)%nat -> slice (l ++ extra) i j = slice l i j.
Proof.
  intros Hij Hj. unfold slice.
  rewrite skipn_app, firstn_app, length_skipn.
  replace (j - i - (length l - i))%nat with 0%nat by lia.
  cbn [firstn]. apply app_nil_r.
Qed.

(** X19. The decoder reads the first 125 bytes of the payload and nothing
    else: a payload shorter than 125 bytes makes it raise [ValueError],
    whatever it holds, and bytes that follow the first 125 change nothing in
    what it returns or raises. *)
Theorem parse_information_reply_reads_125_bytes (data : bytes) :
  ((length data < 125)%nat -> _parse_information_reply data = Raise ValueError) /\
  (length data = 125%nat ->
   forall extra,
     _parse_information_reply (data ++ extra) = _parse_information_reply data).
Proof.
  split.
  - intros H. unfold _parse_information_reply, _TcpData.from_buffer_copy.
    change _TcpData.sizeof with 125%nat.
    destruct (Nat.ltb_spec (length data) 125); [reflexivity|lia].
  - intros H extra. unfold _parse_information_reply. f_equal.
    unfold _TcpData.from_buffer_copy. change _TcpData.sizeof with 125%nat.
    rewrite length_app, H.
    destruct (Nat.ltb_spec (125 + length extra) 125); [lia|].
    cbn [Nat.ltb Nat.leb]. f_equal.
    cbv [_TcpData._fields_ field_bind field_ret c_char_array c_ushort c_uint
           c_ubyte_array array _AcOutput._fields_ fst snd].
    cbn [Nat.add].
    rewrite !slice_app_l by (rewrite ?H; lia). reflexivity.
Qed.

Lemma c_uint_at (data : bytes) (off : nat) :
  (off + 3 < length data)%nat ->
  from_bytes_big (slice data off (off + 4)) = u32_at data off.
Proof.
  intros H. unfold slice, from_bytes_big, u32_at.
  replace (off + 4 - off)%nat with 4%nat by lia.
  rewrite (skipn_nth data off 0) by lia.
  rewrite (skipn_nth data (S off) 0) by lia.
  rewrite (skipn_nth data (S (S off)) 0) by lia.
  rewrite (skipn_nth data (S (S (S off))) 0) by lia.
  cbn [firstn rev app from_bytes_little]. lia.
Qed.

(** X20. In the record decoded from a payload of 125 bytes, the energy of the
    day is the u16 at offset 57 times 0.01, the total energy the u32 at offset
    59 times 0.1 and the hours the u32 at offset 63 as it is, all big endian
    and none with a sentinel; [inverter_active] is true when the u16 at offset
    67 is 1 and false when it is 0. *)
Theorem counters_and_activity (data : bytes) (info : information_reply) :
  length data = 125%nat ->
  _parse_information_reply data = Return info ->
  solar_energy_today info = int_times_float (u16_at data 57) float_0_01 /\
  solar_energy_total info = int_times_float (u32_at data 59) float_0_1 /\
  solar_hours_total info = u32_at data 63 /\
  (u16_at data 67 = 0 \/ u16_at data 67 = 1) /\
  inverter_active info = (u16_at data 67 =? 1).
Proof.
  intros Hlen. rewrite (parse_information_reply_eq data Hlen).
  replace (from_bytes_big (slice data 59 63)) with (u32_at data 59)
    by (symmetry; apply (c_uint_at data 59); rewrite Hlen; lia).
  replace (from_bytes_big (slice data 63 67)) with (u32_at data 63)
    by (symmetry; apply (c_uint_at data 63); rewrite Hlen; lia).
  destruct (decode_utf8 (until_nul (slice data 3 19))); [|discriminate].
  cbn [bind]. unfold int_to_bool.
  destruct (Z.eqb_spec (u16_at data 67) 0) as [E0|E0];
    [|destruct (Z.eqb_spec (u16_at data 67) 1) as [E1|E1]; [|discriminate]];
    cbn [bind];
    (destruct (decode_utf8 (until_nul (slice data 85 101))); [|discriminate]);
    (destruct (decode_utf8 (until_nul (slice data 105 121))); [|discriminate]);
    cbn [bind]; intros H; apply Return_inj in H; subst info;
    cbn [solar_energy_today solar_energy_total solar_hours_total inverter_active];
    repeat split; auto.
  rewrite E0. reflexivity.
Qed.

(** X20 on [sample_payload]. *)
Lemma counters_and_activity_witness :
  solar_energy_today sample_information_reply =
  int_times_float (u16_at sample_payload 57) float_0_01 /\
  solar_energy_total sample_information_reply =
  int_times_float (u32_at sample_payload 59) float_0_1 /\
  solar_hours_total sample_information_reply = u32_at sample_payload 63 /\
  (u16_at sample_payload 67 = 0 \/ u16_at sample_payload 67 = 1) /\
  inverter_active sample_information_reply = (u16_at sample_payload 67 =? 1).
Proof.
  apply (counters_and_activity sample_payload sample_information_reply).
  - reflexivity.
  - vm_compute. reflexivity.
Defined.

Lemma decode_utf8_ascii (text : bytes) :
  ascii_text text -> decode_utf8 text = Return text.
Proof.
  induction 1 as [|c text Hc _ IH]; [reflexivity|].
  cbn [decode_utf8]. unfold in_range at 1.
  destruct (Z.leb_spec 0 c); [|lia]. destruct (Z.leb_spec c 0x7F); [|lia].
  cbn [andb]. rewrite IH. reflexivity.
Qed.

Lemma until_nul_holds (array text : bytes) :
  ascii_text text -> holds_text array text -> until_nul array = text.
Proof.
  intros Ha (padding & -> & Hp).
  induction Ha as [|c text Hc _ IH]; cbn [app until_nul].
  - destruct padding as [|b padding]; [reflexivity|]. subst b. reflexivity.
  - destruct (Z.eqb_spec c 0); [lia|]. now rewrite IH.
Qed.

(** X21. The three strings of the record are the texts the payload holds, as
    they are: when the 16 bytes at offset 3 (85, 105) hold an ASCII text, which
    fills them or is followed by a NUL, [serial_number] ([firmware],
    [firmware_slave]) is this text, with its spaces kept and with nothing of
    what follows the NUL. *)
Theorem text_fields (data : bytes) (info : information_reply)
  (serial firmware_text slave_text : bytes) :
  length data = 125%nat ->
  ascii_text serial -> holds_text (slice data 3 19) serial ->
  ascii_text firmware_text -> holds_text (slice data 85 101) firmware_text ->
  ascii_text slave_text -> holds_text (slice data 105 121) slave_text ->
  _parse_information_reply data = Return info ->
  serial_number info = serial /\
  firmware info = firmware_text /\
  firmware_slave info = slave_text.
Proof.
  intros Hlen A1 H1 A2 H2 A3 H3.
  rewrite (parse_information_reply_eq data Hlen).
  rewrite (until_nul_holds _ _ A1 H1), (until_nul_holds _ _ A2 H2),
    (until_nul_holds _ _ A3 H3).
  rewrite !decode_utf8_ascii by assumption. cbn [bind].
  destruct (int_to_bool (u16_at data 67)); [|discriminate].
  cbn [bind]. intros H. apply Return_inj in H. subst info. auto.
Qed.

(** X21 on [sample_payload]: a serial number of 16 characters, and two
    firmware versions followed by NULs. *)
Lemma text_fields_witness :
  serial_number sample_information_reply =
  [78; 76; 68; 78; 50; 48; 50; 48; 49; 51; 50; 49; 50; 48; 51; 53] /\
  firmware sample_information_reply =
  [78; 76; 49; 45; 86; 49; 46; 48; 45; 48; 48; 55; 55; 45; 52] /\
  firmware_slave sample_information_reply =
  [86; 52; 46; 48; 56; 66; 117; 105; 108; 100; 50; 51; 57].
Proof.
  assert (A : forall l, forallb (fun c => (1 <=? c) && (c <=? 127)) l = true ->
                        ascii_text l).
  { intros l H. apply Forall_forall. intros c Hc.
    rewrite forallb_forall in H. apply H in Hc.
    apply andb_true_iff in Hc. destruct Hc as [H1 H2].
    apply Z.leb_le in H1, H2. lia. }
  apply (text_fields sample_payload sample_information_reply).
  - reflexivity.
  - apply A. reflexivity.
  - exists []. split; [reflexivity|exact I].
  - apply A. reflexivity.
  - exists [0]. split; reflexivity.
  - apply A. reflexivity.
  - exists [0; 0; 0]. split; reflexivity.
  - vm_compute. reflexivity.
Defined.

(** X22. A payload of 125 bytes decodes to a record exactly when the bytes of
    its three strings, up to their first NUL, are UTF-8 and the u16 at offset
    67 is 0 or 1; nothing else in the payload can make the decoder raise. *)
Theorem parse_information_reply_returns_iff (data : bytes) :
  length data = 125%nat ->
  (exists info, _parse_information_reply data = Return info) <->
  (exists text, decode_utf8 (until_nul (slice data 3 19)) = Return text) /\
  (u16_at data 67 = 0 \/ u16_at data 67 = 1) /\
  (exists text, decode_utf8 (until_nul (slice data 85 101)) = Return text) /\
  (exists text, decode_utf8 (until_nul (slice data 105 121)) = Return text).
Proof.
  intros Hlen. rewrite (parse_information_reply_eq data Hlen). unfold int_to_bool.
  destruct (decode_utf8 (until_nul (slice data 3 19))) as [sn|];
    destruct (Z.eqb_spec (u16_at data 67) 0);
    destruct (Z.eqb_spec (u16_at data 67) 1);
    destruct (decode_utf8 (until_nul (slice data 85 101))) as [fw|];
    destruct (decode_utf8 (until_nul (slice data 105 121))) as [fws|];
    cbn [bind]; split;
    try (intros [info H]; discriminate);
    try (intros ([t1 H1] & H2 & [t2 H3] & [t3 H4]); try discriminate;
         try (exfalso; lia); eauto; fail);
    intros _; eauto 10.
Qed.

(** X22 on [sample_payload]. *)
Lemma parse_information_reply_returns_iff_witness :
  (exists info, _parse_information_reply sample_payload = Return info) <->
  (exists text, decode_utf8 (until_nul (slice sample_payload 3 19)) = Return text) /\
  (u16_at sample_payload 67 = 0 \/ u16_at sample_payload 67 = 1) /\
  (exists text, decode_utf8 (until_nul (slice sample_payload 85 101)) = Return text) /\
  (exists text, decode_utf8 (until_nul (slice sample_payload 105 121)) = Return text).
Proof.
  apply (parse_information_reply_returns_iff sample_payload). reflexivity.
Defined.

Lemma u16_at_bound (data : bytes) (off : nat) :
  wf_bytes data -> (S off < length data)%nat -> 0 <= u16_at data off <= 65535.
Proof.
  intros W H. unfold u16_at.
  assert (B : forall i, (i < length data)%nat -> 0 <= nth i data 0 < 256).
  { intros i Hi. apply (proj1 (Forall_nth is_byte data) W i 0 Hi). }
  pose proof (B off ltac:(lia)). pose proof (B (S off) H). lia.
Qed.

(** X23. The sentinel never shows: in the record decoded from a payload of
    125 bytes, each AC power is null or a number from 0 to 65534, and never
    the raw sentinel 65535. *)
Theorem power_is_never_the_sentinel (data : bytes) (info : information_reply)
  (power : Z) :
  wf_bytes data -> length data = 125%nat ->
  _parse_information_reply data = Return info ->
  In (Some power) (ac_output_power info) ->
  0 <= power <= 65534.
Proof.
  intros W Hlen Hinfo Hin.
  destruct (parse_information_reply_Return data info Hlen Hinfo)
    as (_ & _ & _ & _ & _ & _ & Hp).
  rewrite Hp in Hin. cbn [map In] in Hin. unfold _AcOutput.get_power in Hin.
  cbn [_AcOutput.power] in Hin. unfold UINT16_MAX in Hin.
  pose proof (u16_at_bound data 47 W ltac:(rewrite Hlen; lia)).
  pose proof (u16_at_bound data 51 W ltac:(rewrite Hlen; lia)).
  pose proof (u16_at_bound data 55 W ltac:(rewrite Hlen; lia)).
  cbn [Nat.add] in Hin.
  repeat match type of Hin with
         | _ \/ _ => destruct Hin as [Hin|Hin]
         | (if ?c =? 65535 then _ else _) = _ =>
             destruct (Z.eqb_spec c 65535); [discriminate|];
             injection Hin as <-; lia
         | False => contradiction
         end.
Qed.

(** X23 on the one AC phase of [sample_payload] that is in use. *)
Lemma power_is_never_the_sentinel_witness : 0 <= 1643 <= 65534.
Proof.
  apply (power_is_never_the_sentinel sample_payload sample_information_reply 1643).
  - apply wf_bytes_check. reflexivity.
  - reflexivity.
  - vm_compute. reflexivity.
  - left. reflexivity.
Defined.
